(** * larcorealg geometry core: wire topology, plane frames, identifier bounds

    A shallow embedding of [larcorealg/Geometry/GeometryCore.cxx] and of the
    inline part of [larcorealg/Geometry/PlaneGeo.h].

    Conventions of the embedding:
    - C++ [double] values are modelled as real numbers ([R]); the constants
      [0.001], [0.01] and [999.] are the corresponding decimal reals.  The
      only non-finite value the code names,
      [std::numeric_limits<double>::infinity()], is a constructor of its own
      in the type [coord] of intersection coordinates.
    - where the code divides by a value that can be zero (the slope
      functions), the quotient is a value of the type [double]: a real
      number, an infinity, or a NaN.
    - [unsigned int] values are modelled in [N], with the 32-bit wrap-around
      of [+] written out ([uint_add]).
    - code that throws returns [Throw e] in the [result] type; the exception
      records the category the code gives to [cet::exception].
    - function-local [static] variables are an explicit state threaded
      through the call. *)

From Stdlib Require Import Reals Lra Lia ZArith NArith List Bool String.
From Stdlib Require Import R_Ifp RNsatz.
Import ListNotations.

(** ** Results of calls that may throw *)

Inductive exception : Type :=
| cet_exception (category : string)
| InvalidWireError (category : string) (badWire betterWire : Z)
| std_out_of_range.

Inductive result (A : Type) : Type :=
| Ok (a : A)
| Throw (e : exception).

Arguments Ok {A} a.
Arguments Throw {A} e.

Definition bind {A B : Type} (r : result A) (k : A -> result B) : result B :=
  match r with
  | Ok a => k a
  | Throw e => Throw e
  end.

Notation "x <- c ;; k" := (bind c (fun x => k))
  (at level 61, c at next level, right associativity).

Definition returns {A : Type} (r : result A) : Prop := exists a, r = Ok a.
Definition throws {A : Type} (r : result A) : Prop := exists e, r = Throw e.

(** ** Machine integers *)

Definition UINT_MAX : N := 4294967295.

(** [unsigned int] addition. *)
Definition uint_add (a b : N) : N := ((a + b) mod (UINT_MAX + 1))%N.

(** ** Real comparisons as the boolean tests of the code *)

Definition Rltb (a b : R) : bool := if Rlt_dec a b then true else false.
Definition Rgtb (a b : R) : bool := Rltb b a.
Definition Rneqb (a b : R) : bool := if Req_dec_T a b then false else true.

(** ** Identifiers (geo_types.h)

    Modelled from the spec: the header [geo_types.h] is absent.  Section 3:
    the identifier types form a containment chain, each adding one
    non-negative index to its parent, and an identifier carries an explicit
    validity flag.  The flag lives in the outermost level, as the derived
    classes inherit it. *)

Record CryostatID : Type := mkCryostatID { isValid : bool; Cryostat : N }.
Record TPCID : Type := mkTPCID { asCryostatID : CryostatID; TPC : N }.
Record PlaneID : Type := mkPlaneID { asTPCID : TPCID; Plane : N }.
Record WireID : Type := mkWireID { asPlaneID : PlaneID; Wire : N }.

(** [CryostatID{c}], [TPCID{c, t}]: identifiers built from plain indices are
    valid. *)
Definition CryostatID_of (c : N) : CryostatID := mkCryostatID true c.
Definition TPCID_of (c t : N) : TPCID := mkTPCID (CryostatID_of c) t.
Definition PlaneID_of (c t p : N) : PlaneID := mkPlaneID (TPCID_of c t) p.
Definition WireID_of (c t p w : N) : WireID := mkWireID (PlaneID_of c t p) w.

(** [TPCID::InvalidID]: the largest value of the index type. *)
Definition InvalidID : N := UINT_MAX.

Definition planeValid (p : PlaneID) : bool := isValid (asCryostatID (asTPCID p)).

(** [markInvalid()] clears the flag and keeps the indices. *)
Definition markInvalid_cryo (id : CryostatID) : CryostatID :=
  mkCryostatID false (Cryostat id).
Definition markInvalid_tpc (id : TPCID) : TPCID :=
  mkTPCID (markInvalid_cryo (asCryostatID id)) (TPC id).
Definition markInvalid_plane (id : PlaneID) : PlaneID :=
  mkPlaneID (markInvalid_tpc (asTPCID id)) (Plane id).

(** Comparison is on the indices of the chain, not on the validity flag. *)
Definition CryostatID_eqb (a b : CryostatID) : bool :=
  (Cryostat a =? Cryostat b)%N.
Definition TPCID_eqb (a b : TPCID) : bool :=
  CryostatID_eqb (asCryostatID a) (asCryostatID b) && (TPC a =? TPC b)%N.
Definition PlaneID_eqb (a b : PlaneID) : bool :=
  TPCID_eqb (asTPCID a) (asTPCID b) && (Plane a =? Plane b)%N.

(** ** Points and vectors *)

Record XYZ : Type := mkXYZ { getX : R; getY : R; getZ : R }.
Definition Point_t : Type := XYZ.
Definition Vector_t : Type := XYZ.

Local Open Scope R_scope.

Definition vadd (a b : XYZ) : XYZ :=
  mkXYZ (getX a + getX b) (getY a + getY b) (getZ a + getZ b).
Definition vsub (a b : XYZ) : XYZ :=
  mkXYZ (getX a - getX b) (getY a - getY b) (getZ a - getZ b).
Definition vscale (k : R) (a : XYZ) : XYZ :=
  mkXYZ (k * getX a) (k * getY a) (k * getZ a).
Definition dot (a b : XYZ) : R :=
  getX a * getX b + getY a * getY b + getZ a * getZ b.
Definition cross (a b : XYZ) : XYZ :=
  mkXYZ (getY a * getZ b - getZ a * getY b)
        (getZ a * getX b - getX a * getZ b)
        (getX a * getY b - getY a * getX b).

Local Close Scope R_scope.

(** ** Frame decomposition (Decomposer.h) *)

Module Decomposer.
Local Open Scope R_scope.

(** Modelled from the spec: the header [Decomposer.h] is absent.
    Section 4.1: an oriented frame has an origin point [R], axes [A]
    ("main") and [B] ("secondary") and a normal [N].  A point [P]
    decomposes into [(d, (a, b))] with [d = (P - R) . N] and
    [(a, b) = ((P - R) . A, (P - R) . B)]; the inverse composition is
    [P = R + d N + a A + b B].  Vectors decompose without the [R]
    offset. *)
Record t : Type := mk {
  ReferencePoint : Point_t;
  MainDir : Vector_t;
  SecondaryDir : Vector_t;
  NormalDir : Vector_t
}.

(** A decomposed vector: the component orthogonal to the plane, and the
    projection on the plane. *)
Record DecomposedVector_t : Type := mkDecomposed {
  distance : R;
  projection : R * R
}.

Definition ToVector (f : t) (point : Point_t) : Vector_t :=
  vsub point (ReferencePoint f).

Definition VectorMainComponent (f : t) (v : Vector_t) : R := dot v (MainDir f).
Definition VectorSecondaryComponent (f : t) (v : Vector_t) : R :=
  dot v (SecondaryDir f).
Definition VectorNormalComponent (f : t) (v : Vector_t) : R :=
  dot v (NormalDir f).

Definition PointMainComponent (f : t) (p : Point_t) : R :=
  VectorMainComponent f (ToVector f p).
Definition PointSecondaryComponent (f : t) (p : Point_t) : R :=
  VectorSecondaryComponent f (ToVector f p).
Definition PointNormalComponent (f : t) (p : Point_t) : R :=
  VectorNormalComponent f (ToVector f p).

Definition ProjectVectorOnPlane (f : t) (v : Vector_t) : R * R :=
  (VectorMainComponent f v, VectorSecondaryComponent f v).
Definition ProjectPointOnPlane (f : t) (p : Point_t) : R * R :=
  ProjectVectorOnPlane f (ToVector f p).

Definition DecomposeVector (f : t) (v : Vector_t) : DecomposedVector_t :=
  mkDecomposed (VectorNormalComponent f v) (ProjectVectorOnPlane f v).
Definition DecomposePoint (f : t) (p : Point_t) : DecomposedVector_t :=
  DecomposeVector f (ToVector f p).

Definition ComposeVector (f : t) (d : DecomposedVector_t) : Vector_t :=
  vadd (vscale (distance d) (NormalDir f))
       (vadd (vscale (fst (projection d)) (MainDir f))
             (vscale (snd (projection d)) (SecondaryDir f))).
Definition ComposePoint (f : t) (d : DecomposedVector_t) : Point_t :=
  vadd (ReferencePoint f) (ComposeVector f d).

(** The frames the spec admits (section 4.1): orthonormal axes, with the
    normal [N = A x B]. *)
Definition orthonormal (f : t) : Prop :=
  dot (MainDir f) (MainDir f) = 1 /\
  dot (SecondaryDir f) (SecondaryDir f) = 1 /\
  dot (MainDir f) (SecondaryDir f) = 0 /\
  NormalDir f = cross (MainDir f) (SecondaryDir f).
End Decomposer.

(** ** Wires and planes (WireGeo.h, PlaneGeo.h) *)

(** Modelled from the spec: the header [WireGeo.h] is absent.  Section 3: a
    wire owns two 3D end points in world coordinates, a half-length and a
    center. *)
Record WireGeo : Type := mkWireGeo {
  GetStart : Point_t;
  GetEnd : Point_t;
  GetCenter : Point_t;
  HalfL : R
}.

Module PlaneGeo.
Local Open Scope R_scope.

(** The data members of [class PlaneGeo] that the queries below read. *)
Record t : Type := mk {
  fWire : list WireGeo;
  fWirePitch : R;
  fSinPhiZ : R;
  fCosPhiZ : R;
  fNormal : Vector_t;
  fDecompWire : Decomposer.t;
  fDecompFrame : Decomposer.t;
  fCenter : Point_t;
  fID : PlaneID
}.

Definition ID (p : t) : PlaneID := fID p.
Definition Nwires (p : t) : N := N.of_nat (List.length (fWire p)).
Definition HasWire (p : t) (iwire : N) : bool := (iwire <? Nwires p)%N.
Definition WirePtr (p : t) (iwire : N) : option WireGeo :=
  if HasWire p iwire then nth_error (fWire p) (N.to_nat iwire) else None.
Definition WirePitch (p : t) : R := fWirePitch p.

(** [Wire(iwire)]: declared to throw in category "WireOutOfRange" if there
    is no such wire. *)
Definition Wire (p : t) (iwire : N) : result WireGeo :=
  match WirePtr p iwire with
  | Some w => Ok w
  | None => Throw (cet_exception "WireOutOfRange")
  end.

Definition DistanceFromPlane (p : t) (point : Point_t) : R :=
  Decomposer.PointNormalComponent (fDecompWire p) point.

Definition PlaneCoordinateFrom (p : t) (point : Point_t) (refWire : WireGeo) : R :=
  Decomposer.VectorSecondaryComponent (fDecompWire p)
    (vsub point (GetCenter refWire)).

Definition PlaneCoordinate (p : t) (point : Point_t) : R :=
  Decomposer.PointSecondaryComponent (fDecompWire p) point.

Definition WireCoordinate (p : t) (point : Point_t) : R :=
  PlaneCoordinate p point / WirePitch p.

Definition DecomposePoint (p : t) (point : Point_t) : Decomposer.DecomposedVector_t :=
  Decomposer.DecomposePoint (fDecompWire p) point.

Definition ComposePoint (p : t) (decomp : Decomposer.DecomposedVector_t) : Point_t :=
  Decomposer.ComposePoint (fDecompWire p) decomp.

Definition DecomposePointWidthDepth (p : t) (point : Point_t)
  : Decomposer.DecomposedVector_t :=
  Decomposer.DecomposePoint (fDecompFrame p) point.

(** The overload of [ComposePoint] on [WDDecomposedVector_t]. *)
Definition ComposePointWidthDepth (p : t) (decomp : Decomposer.DecomposedVector_t)
  : Point_t :=
  Decomposer.ComposePoint (fDecompFrame p) decomp.

(** [ClosestWireID(WireID_t wireNo)]: [{ID(), std::min(wireNo, Nwires())}]. *)
Definition ClosestWireID (p : t) (wireNo : N) : WireID :=
  mkWireID (ID p) (N.min wireNo (Nwires p)).

(** A constructed plane (spec, sections 3 and 4.2): both frames are
    orthonormal, the wire frame is anchored at the center of wire 0, the
    pitch is positive, and the wires are parallel to the main axis and
    equally spaced along the secondary axis. *)
Definition constructed (p : t) : Prop :=
  Decomposer.orthonormal (fDecompWire p) /\
  Decomposer.orthonormal (fDecompFrame p) /\
  0 < fWirePitch p /\
  forall (i : nat) (w : WireGeo),
    nth_error (fWire p) i = Some w ->
    exists l : R,
      GetCenter w =
      vadd (Decomposer.ReferencePoint (fDecompWire p))
           (vadd (vscale l (Decomposer.MainDir (fDecompWire p)))
                 (vscale (INR i * fWirePitch p)
                         (Decomposer.SecondaryDir (fDecompWire p)))).
End PlaneGeo.

(** ** The hierarchy (TPCGeo.h, CryostatGeo.h, OpDetGeo.h, GeometryCore.h)

    Modelled from the spec: these headers are absent.  Section 3: each
    container exclusively owns the ordered sequence of its children, and the
    index of a child in the sequence is its number in the identifier. *)

Record OpDetGeo : Type := mkOpDetGeo { OpDetCenter : Point_t }.

Record TPCGeo : Type := mkTPCGeo { Planes : list PlaneGeo.t }.

Record CryostatGeo : Type := mkCryostatGeo {
  TPCs : list TPCGeo;
  OpDets : list OpDetGeo
}.

Record GeometryCore : Type := mkGeometryCore { Cryostats : list CryostatGeo }.

Definition Nplanes_tpc (tpc : TPCGeo) : N := N.of_nat (List.length (Planes tpc)).
Definition NTPC (cryo : CryostatGeo) : N := N.of_nat (List.length (TPCs cryo)).
Definition NOpDet (cryo : CryostatGeo) : N := N.of_nat (List.length (OpDets cryo)).

(** [CryostatGeo::MaxPlanes()]: the largest number of planes in any TPC of
    the cryostat. *)
Definition MaxPlanes_cryo (cryo : CryostatGeo) : N :=
  fold_left (fun m tpc => N.max m (Nplanes_tpc tpc)) (TPCs cryo) 0%N.

(** [CryostatGeo::OpDet(o)]: bounds-checked access. *)
Definition OpDet (cryo : CryostatGeo) (o : N) : result OpDetGeo :=
  match nth_error (OpDets cryo) (N.to_nat o) with
  | Some od => Ok od
  | None => Throw (cet_exception "OpDetOutOfRange")
  end.

Section Accessors.
Variable g : GeometryCore.

Definition Ncryostats : N := N.of_nat (List.length (Cryostats g)).

(** Pointer-returning accessors: [None] is the null pointer.  The validity
    flag of the identifier is not consulted, only its indices. *)
Definition CryostatPtr (id : CryostatID) : option CryostatGeo :=
  nth_error (Cryostats g) (N.to_nat (Cryostat id)).

Definition TPCPtr (id : TPCID) : option TPCGeo :=
  match CryostatPtr (asCryostatID id) with
  | Some cryo => nth_error (TPCs cryo) (N.to_nat (TPC id))
  | None => None
  end.

Definition PlanePtr (id : PlaneID) : option PlaneGeo.t :=
  match TPCPtr (asTPCID id) with
  | Some tpc => nth_error (Planes tpc) (N.to_nat (Plane id))
  | None => None
  end.

Definition WirePtr (id : WireID) : option WireGeo :=
  match PlanePtr (asPlaneID id) with
  | Some plane => PlaneGeo.WirePtr plane (Wire id)
  | None => None
  end.

Definition HasPlane (id : PlaneID) : bool :=
  match PlanePtr id with
  | Some _ => true
  | None => false
  end.

Definition HasWire (id : WireID) : bool :=
  match PlanePtr (asPlaneID id) with
  | Some plane => PlaneGeo.HasWire plane (Wire id)
  | None => false
  end.

(** [Nplanes(tpcid)]: 0 when the TPC does not exist. *)
Definition Nplanes (id : TPCID) : N :=
  match TPCPtr id with
  | Some tpc => Nplanes_tpc tpc
  | None => 0%N
  end.

(** [GeometryCore::Cryostat(cryoid)] (GeometryCore.cxx). *)
Definition Cryostat_at (cryoid : CryostatID) : result CryostatGeo :=
  match CryostatPtr cryoid with
  | Some cryo => Ok cryo
  | None => Throw (cet_exception "GeometryCore")
  end.

(** [Wire(wireid)]: the reference-returning accessor throws when the wire
    does not exist. *)
Definition Wire_at (id : WireID) : result WireGeo :=
  match WirePtr id with
  | Some w => Ok w
  | None => Throw (cet_exception "GeometryCore")
  end.

(** [WireEndPoints(wireid)] as a segment: the two end points of the
    wire. *)
Definition WireEndPoints_segment (id : WireID) : result (Point_t * Point_t) :=
  w <- Wire_at id ;; Ok (GetStart w, GetEnd w).

(** Begin identifiers: index 0 inside the given container, with the
    validity of the container identifier. *)
Definition GetBeginTPCID (id : CryostatID) : TPCID := mkTPCID id 0.
Definition GetBeginPlaneID_tpc (id : TPCID) : PlaneID := mkPlaneID id 0.
Definition GetBeginPlaneID_cryo (id : CryostatID) : PlaneID :=
  mkPlaneID (GetBeginTPCID id) 0.
End Accessors.

(** ** Nearest wire (PlaneGeo.cxx) *)

Module NearestWire.
Local Open Scope R_scope.

(** Rounding to the nearest integer. *)
Definition round (x : R) : Z := Int_part (x + / 2).

(** Clamping of a wire number to the existing wires. *)
Definition clamp (nwires : N) (wireNo : Z) : Z :=
  Z.max 0 (Z.min wireNo (Z.of_N nwires - 1)).

(** The wire [wireNo] is within half a pitch of the projection of
    [pos]. *)
Definition withinHalfPitch (p : PlaneGeo.t) (pos : Point_t) (wireNo : Z) : bool :=
  negb (Rltb (PlaneGeo.WirePitch p / 2)
             (Rabs (IZR wireNo * PlaneGeo.WirePitch p - PlaneGeo.PlaneCoordinate p pos))).

(** Modelled from the spec: [PlaneGeo::NearestWireID] is declared in
    PlaneGeo.h and its body (PlaneGeo.cxx) is absent.  Section 4.2: round
    [WireCoordinate(P)] to the nearest integer, clamp to [[0, Nwires-1]];
    if the clamped index is not within half a pitch of the true
    projection, this is an out-of-range condition carrying both the
    nominal and the corrected wire index ([InvalidWireError], category
    "Geometry", in the documentation of the declaration). *)
Definition NearestWireID (p : PlaneGeo.t) (pos : Point_t) : result WireID :=
  let nominal := round (PlaneGeo.WireCoordinate p pos) in
  let corrected := clamp (PlaneGeo.Nwires p) nominal in
  if withinHalfPitch p pos corrected
  then Ok (mkWireID (PlaneGeo.ID p) (Z.to_N corrected))
  else Throw (InvalidWireError "Geometry" nominal corrected).
End NearestWire.

(** ** Iteration bounds (GeometryCore.cxx) *)

(** [GetEndTPCID(CryostatID const&)] *)
Definition GetEndTPCID (g : GeometryCore) (id : CryostatID) : TPCID :=
  match CryostatPtr g id with
  | Some cryo =>
      if (0 <? NTPC cryo)%N then TPCID_of (uint_add (Cryostat id) 1) 0
      else markInvalid_tpc (GetBeginTPCID id)
  | None => markInvalid_tpc (GetBeginTPCID id)
  end.

(** [GetEndPlaneID(CryostatID const&)] *)
Definition GetEndPlaneID_cryo (g : GeometryCore) (id : CryostatID) : PlaneID :=
  match CryostatPtr g id with
  | Some cryo =>
      if (0 <? MaxPlanes_cryo cryo)%N then mkPlaneID (GetEndTPCID g id) 0
      else GetBeginPlaneID_cryo id
  | None => GetBeginPlaneID_cryo id
  end.

Section EndPlaneID_TPC.
(** [GetNextID(TPCID)] is defined in the absent GeometryCore.h: the
    identifier that follows in the iteration order. *)
Variable GetNextID : GeometryCore -> TPCID -> TPCID.

(** [GetEndPlaneID(TPCID const&)] *)
Definition GetEndPlaneID_tpc (g : GeometryCore) (id : TPCID) : PlaneID :=
  match TPCPtr g id with
  | Some tpc =>
      if (0 <? Nplanes_tpc tpc)%N then mkPlaneID (GetNextID g id) 0
      else markInvalid_plane (GetBeginPlaneID_tpc id)
  | None => markInvalid_plane (GetBeginPlaneID_tpc id)
  end.
End EndPlaneID_TPC.

(** ** Wire end points (GeometryCore.cxx) *)

Section WireEndPoints.
Local Open Scope R_scope.

(** The two conditional swaps of [WireEndPoints(wireid, xyzStart, xyzEnd)],
    on the pair [(xyzStart, xyzEnd)]. *)
Definition WireEndPoints_order (seg : Point_t * Point_t) : Point_t * Point_t :=
  let (xyzStart, xyzEnd) := seg in
  let (xyzStart, xyzEnd) :=
    if Rltb (getZ xyzEnd) (getZ xyzStart)
    then (xyzEnd, xyzStart) else (xyzStart, xyzEnd) in
  if Rltb (getY xyzEnd) (getY xyzStart)
     && Rltb (Rabs (getZ xyzEnd - getZ xyzStart)) 0.01
  then (xyzEnd, xyzStart) else (xyzStart, xyzEnd).

Definition WireEndPoints (g : GeometryCore) (wireid : WireID)
  : result (Point_t * Point_t) :=
  seg <- WireEndPoints_segment g wireid ;;
  Ok (WireEndPoints_order seg).
End WireEndPoints.

(** ** Wire intersection (GeometryCore.cxx) *)

(** A coordinate of an intersection: a real, or the infinity the code stores
    on failure. *)
Inductive coord : Type :=
| finite (r : R)
| infinity.

Module WireIDIntersection.
Record t : Type := mk { y : coord; z : coord; TPC : N }.
End WireIDIntersection.

(** [WireIDIntersectionCheck(wid1, wid2)] *)
Definition WireIDIntersectionCheck (g : GeometryCore) (wid1 wid2 : WireID) : bool :=
  if negb (TPCID_eqb (asTPCID (asPlaneID wid1)) (asTPCID (asPlaneID wid2))) then false
  else if (Plane (asPlaneID wid1) =? Plane (asPlaneID wid2))%N then false
  else if negb (HasWire g wid1) then false
  else if negb (HasWire g wid2) then false
  else true.

Section WireIDsIntersect.
(** The two geometric helpers are defined outside GeometryCore.cxx:
    [IntersectLines] returns whether the two lines cross, and the crossing
    point; [PointWithinSegments] tests the point against both segments. *)
Variable IntersectLines : R -> R -> R -> R -> R -> R -> R -> R -> bool * (R * R).
Variable PointWithinSegments :
  R -> R -> R -> R -> R -> R -> R -> R -> R -> R -> bool.

Definition failedIntersection : WireIDIntersection.t :=
  WireIDIntersection.mk infinity infinity InvalidID.

(** [WireIDsIntersect(wid1, wid2, widIntersect)]: the returned flag and the
    value left in [widIntersect]. *)
Definition WireIDsIntersect (g : GeometryCore) (wid1 wid2 : WireID)
  : result (bool * WireIDIntersection.t) :=
  if negb (WireIDIntersectionCheck g wid1 wid2) then Ok (false, failedIntersection)
  else
    w1 <- WireEndPoints_segment g wid1 ;;
    w2 <- WireEndPoints_segment g wid2 ;;
    let '(cross, (y, z)) :=
      IntersectLines (getY (fst w1)) (getZ (fst w1)) (getY (snd w1)) (getZ (snd w1))
                     (getY (fst w2)) (getZ (fst w2)) (getY (snd w2)) (getZ (snd w2)) in
    if negb cross then Ok (false, failedIntersection)
    else
      let within :=
        PointWithinSegments
          (getY (fst w1)) (getZ (fst w1)) (getY (snd w1)) (getZ (snd w1))
          (getY (fst w2)) (getZ (fst w2)) (getY (snd w2)) (getZ (snd w2)) y z in
      Ok (within,
          WireIDIntersection.mk (finite y) (finite z)
            (if within then TPC (asTPCID (asPlaneID wid1)) else InvalidID)).
End WireIDsIntersect.

(** ** Third plane (GeometryCore.cxx) *)

(** The body of the [for] loop of [ThirdPlane], over the plane numbers still
    to visit; [target_plane] is the candidate found so far ([nPlanes] when
    none). *)
Fixpoint ThirdPlane_loop (pid1 pid2 : PlaneID) (nPlanes : N)
         (iPlanes : list N) (target_plane : N) : result N :=
  match iPlanes with
  | [] => Ok target_plane
  | iPlane :: rest =>
      if ((iPlane =? Plane pid1) || (iPlane =? Plane pid2))%N
      then ThirdPlane_loop pid1 pid2 nPlanes rest target_plane
      else if negb (target_plane =? nPlanes)%N
      then Throw (cet_exception "GeometryCore")
      else ThirdPlane_loop pid1 pid2 nPlanes rest iPlane
  end.

(** The plane numbers [0 .. n-1]. *)
Definition planeNumbers (n : N) : list N := map N.of_nat (seq 0 (N.to_nat n)).

(** [ThirdPlane(pid1, pid2)] *)
Definition ThirdPlane (g : GeometryCore) (pid1 pid2 : PlaneID) : result PlaneID :=
  let nPlanes := Nplanes g (asTPCID pid1) in
  if negb (nPlanes =? 3)%N then Throw (cet_exception "GeometryCore")
  else
    target_plane <- ThirdPlane_loop pid1 pid2 nPlanes (planeNumbers nPlanes) nPlanes ;;
    if (target_plane =? nPlanes)%N then Throw (cet_exception "GeometryCore")
    else Ok (mkPlaneID (asTPCID pid1) target_plane).

(** ** Third plane slope (GeometryCore.cxx) *)

Section ThirdPlaneSlope.
Local Open Scope R_scope.

(** The value of a [double] expression that may have divided by zero: a
    real number, an infinity, or a NaN.  One constructor stands for the
    infinity of either sign: the comparisons, the inverse and the product
    the code applies to such a value give the same result for both signs,
    a zero standing for the zero of either sign. *)
Inductive double : Type :=
| num (r : R)
| inf
| nan.

(** [a / b] on two numbers: for [b] zero, an infinity, and a NaN when [a]
    is zero as well. *)
Definition quotient (a b : R) : double :=
  if Rneqb b 0 then num (a / b)
  else if Rneqb a 0 then inf
  else nan.

(** [1. / x]: the inverse of an infinity is a zero, that of a NaN a NaN. *)
Definition inverse (x : double) : double :=
  match x with
  | num r => quotient 1 r
  | inf => num 0
  | nan => nan
  end.

(** [a * x] for a number [a]. *)
Definition scale (a : R) (x : double) : double :=
  match x with
  | num r => num (a * r)
  | inf => if Rneqb a 0 then inf else nan
  | nan => nan
  end.

(** [x != 0.]: true of an infinity, and of a NaN, which differs from every
    number. *)
Definition nonzero (x : double) : bool :=
  match x with
  | num r => Rneqb r 0
  | inf => true
  | nan => true
  end.

(** [std::abs(slope) < 0.001]: false of an infinity, and of a NaN, for
    which every ordered comparison is false. *)
Definition belowThreshold (slope : double) : bool :=
  match slope with
  | num r => Rltb (Rabs r) 0.001
  | inf => false
  | nan => false
  end.

(** [std::abs(slope) > 0.001] and, for a slope that passes the test, the
    value of [1. / slope], which is then a number: the inverse of a real
    above the threshold, and a zero for an infinite slope.  A NaN fails the
    test. *)
Definition inverseAboveThreshold (slope : double) : option R :=
  match slope with
  | num r => if Rgtb (Rabs r) 0.001 then Some (1 / r) else None
  | inf => Some 0
  | nan => None
  end.

(** The quotient the code assigns to [slope3] when both slopes are above
    the threshold, from the angles and the two inverse slopes
    [1. / slope1] and [1. / slope2].  The divisor [std::sin(angle1 - angle2)]
    is not tested: it is zero for two planes at the same angle. *)
Definition thirdPlaneInverseSlope (angle1 inverse1 angle2 inverse2 angle3 : R)
  : double :=
  quotient (inverse1 * sin (angle3 - angle2) - inverse2 * sin (angle3 - angle1))
           (sin (angle1 - angle2)).

(** The value of the local [slope3] when the code reaches the test
    [slope3 != 0.]: initialised to [0.001], overwritten when both slopes
    are above the threshold. *)
Definition computedSlope3 (angle1 : R) (slope1 : double) (angle2 : R)
           (slope2 : double) (angle3 : R) : double :=
  match inverseAboveThreshold slope1, inverseAboveThreshold slope2 with
  | Some inverse1, Some inverse2 =>
      thirdPlaneInverseSlope angle1 inverse1 angle2 inverse2 angle3
  | _, _ => num 0.001
  end.

(** [ComputeThirdPlaneSlope(angle1, slope1, angle2, slope2, angle3)].  The
    angles are numbers; the slopes may be the quotients that
    [ComputeThirdPlane_dTdW] hands over. *)
Definition ComputeThirdPlaneSlope (angle1 : R) (slope1 : double) (angle2 : R)
           (slope2 : double) (angle3 : R) : double :=
  if belowThreshold slope1 && belowThreshold slope2 then num 0.001
  else
    let slope3 := computedSlope3 angle1 slope1 angle2 slope2 angle3 in
    if nonzero slope3 then inverse slope3 else num 999.
End ThirdPlaneSlope.

(** ** Optical detector numbering (GeometryCore.cxx) *)

Module OpDetNumbering.
Local Open Scope N_scope.

(** [std::vector<unsigned int>]: [resize] keeps the leading elements and
    fills with zeros; [at] is the checked access. *)
Definition resize (n : N) (v : list N) : list N :=
  firstn (N.to_nat n) v ++ repeat 0 (N.to_nat n - List.length v)%nat.

Definition vec_at (v : list N) (i : N) : result N :=
  match nth_error v (N.to_nat i) with
  | Some x => Ok x
  | None => Throw std_out_of_range
  end.

Fixpoint set_nth (i : nat) (x : N) (v : list N) : list N :=
  match v, i with
  | [], _ => []
  | _ :: t, O => x :: t
  | h :: t, S i' => h :: set_nth i' x t
  end.

Definition vec_set_at (v : list N) (i : N) (x : N) : result (list N) :=
  if i <? N.of_nat (List.length v) then Ok (set_nth (N.to_nat i) x v)
  else Throw std_out_of_range.

(** The function-local statics [Loaded], [LowestID] and [NCryo]; each of
    the two functions has its own copy. *)
Record statics : Type := mkStatics {
  Loaded : bool;
  LowestID : list N;
  NCryo : N
}.

Definition initial : statics := mkStatics false [] 0.

(** The table-filling loop: [LowestID.at(cryo + 1) = LowestID.at(cryo) +
    Cryostat(which cryo).NOpDet()], for [n] more values of [cryo].  A
    throw leaves the entries written so far.  The table has [NCryo + 1]
    entries, so the accesses are in range, also where
    [OpDetGeoFromOpDet] uses the unchecked [operator[]]. *)
Fixpoint fillLowestID (g : GeometryCore) (which : N -> CryostatID)
         (n : nat) (cryo : N) (v : list N) : result unit * list N :=
  match n with
  | O => (Ok tt, v)
  | S n' =>
      match vec_at v cryo, Cryostat_at g (which cryo) with
      | Ok low, Ok cryostat =>
          match vec_set_at v (cryo + 1) (uint_add low (NOpDet cryostat)) with
          | Ok v' => fillLowestID g which n' (cryo + 1) v'
          | Throw e => (Throw e, v)
          end
      | Throw e, _ => (Throw e, v)
      | _, Throw e => (Throw e, v)
      end
  end.

(** The lazy initialisation shared by the two functions; [which] is the
    cryostat whose [NOpDet()] the loop reads at each step: the argument
    [cid] of the call in [OpDetFromCryo], [CryostatID(cryo)] in
    [OpDetGeoFromOpDet]. *)
Definition load (g : GeometryCore) (which : N -> CryostatID) (st : statics)
  : result unit * statics :=
  if Loaded st then (Ok tt, st)
  else
    let nCryo := Ncryostats g in
    let v := resize (uint_add nCryo 1) (LowestID st) in
    match vec_set_at v 0 0 with
    | Ok v0 =>
        let (r, v') := fillLowestID g which (N.to_nat nCryo) 0 v0 in
        (r, mkStatics true v' nCryo)
    | Throw e => (Throw e, mkStatics true v nCryo)
    end.

(** [OpDetFromCryo(o, c)] *)
Definition OpDetFromCryo (g : GeometryCore) (o c : N) (st : statics)
  : result N * statics :=
  let cid := CryostatID_of c in
  match load g (fun _ => cid) st with
  | (Throw e, st') => (Throw e, st')
  | (Ok _, st') =>
      let inRange :=
        (c <? NCryo st') &&
        match Cryostat_at g cid with
        | Ok cryostat => o <? NOpDet cryostat
        | Throw _ => false
        end in
      if inRange
      then (low <- vec_at (LowestID st') c ;; Ok (uint_add low o), st')
      else (Throw (cet_exception "OpDetCryoToOpID Error"), st')
  end.

(** The search loop of [OpDetGeoFromOpDet] over the cryostats [i, i+1,
    ...], [n] of them. *)
Fixpoint findOpDet (g : GeometryCore) (table : list N) (OpDet_ : N)
         (n : nat) (i : N) : result OpDetGeo :=
  match n with
  | O => Throw (cet_exception "OpID To OpDetCryo error")
  | S n' =>
      if (nth (N.to_nat i) table 0 <=? OpDet_)
         && (OpDet_ <? nth (N.to_nat (i + 1)) table 0)
      then
        cryostat <- Cryostat_at g (CryostatID_of i) ;;
        OpDet cryostat (OpDet_ - nth (N.to_nat i) table 0)
      else findOpDet g table OpDet_ n' (i + 1)
  end.

(** [OpDetGeoFromOpDet(OpDet)] *)
Definition OpDetGeoFromOpDet (g : GeometryCore) (OpDet_ : N) (st : statics)
  : result OpDetGeo * statics :=
  match load g CryostatID_of st with
  | (Throw e, st') => (Throw e, st')
  | (Ok _, st') =>
      (findOpDet g (LowestID st') OpDet_ (N.to_nat (NCryo st')) 0, st')
  end.

(** The number of optical detectors in the cryostats below [c], plus
    [o]. *)
Definition expectedOpDet (g : GeometryCore) (o c : N) : N :=
  fold_left (fun s cryo => s + NOpDet cryo) (firstn (N.to_nat c) (Cryostats g)) 0 + o.
End OpDetNumbering.

(** ** A small detector used for the concrete runs

    Cryostat 0 holds a TPC with three planes and a TPC with four planes,
    and one optical detector; cryostat 1 holds no TPC and two optical
    detectors.  The wires of [straightPlane] run along y and are spaced by 2
    along z. *)

Module Sample.
Local Open Scope R_scope.

Definition wireAt (zc : R) : WireGeo :=
  mkWireGeo (mkXYZ 0 (-1) zc) (mkXYZ 0 1 zc) (mkXYZ 0 0 zc) 1.

Definition wireFrame : Decomposer.t :=
  Decomposer.mk (mkXYZ 0 0 0) (mkXYZ 0 1 0) (mkXYZ 0 0 1) (mkXYZ 1 0 0).

Definition boxFrame : Decomposer.t :=
  Decomposer.mk (mkXYZ 0 0 2) (mkXYZ 0 0 1) (mkXYZ 0 1 0) (mkXYZ (-1) 0 0).

Definition straightPlane (p : N) : PlaneGeo.t :=
  PlaneGeo.mk [wireAt 0; wireAt 2; wireAt 4] 2 1 0 (mkXYZ 1 0 0)
              wireFrame boxFrame (mkXYZ 0 0 2) (PlaneID_of 0 0 p).

(** A nearly vertical wire whose upper end is the start point and lies
    0.005 behind the lower end in z. *)
Definition tiltedWire : WireGeo :=
  mkWireGeo (mkXYZ 0 1 0) (mkXYZ 0 0 0.005) (mkXYZ 0 0.5 0.0025) 0.5.

Definition tiltedPlane (p : N) : PlaneGeo.t :=
  PlaneGeo.mk [tiltedWire] 2 1 0 (mkXYZ 1 0 0)
              wireFrame boxFrame (mkXYZ 0 0 2) (PlaneID_of 0 0 p).

Definition tpc3 : TPCGeo :=
  mkTPCGeo [straightPlane 0; straightPlane 1; tiltedPlane 2].
Definition tpc4 : TPCGeo :=
  mkTPCGeo [straightPlane 0; straightPlane 1; straightPlane 2; straightPlane 3].

Definition opdetA : OpDetGeo := mkOpDetGeo (mkXYZ 0 0 0).
Definition opdetB : OpDetGeo := mkOpDetGeo (mkXYZ 1 0 0).
Definition opdetC : OpDetGeo := mkOpDetGeo (mkXYZ 2 0 0).

Definition cryo0 : CryostatGeo := mkCryostatGeo [tpc3; tpc4] [opdetA].
Definition cryo1 : CryostatGeo := mkCryostatGeo [] [opdetB; opdetC].

Definition detector : GeometryCore := mkGeometryCore [cryo0; cryo1].
End Sample.

(** * Further functions of GeometryCore.cxx and PlaneGeo.h *)

(** [unsigned int] subtraction. *)
Definition uint_sub (a b : N) : N := ((a + (UINT_MAX + 1) - b) mod (UINT_MAX + 1))%N.

(** ** Slopes in wire units (GeometryCore.cxx) *)

(** [ComputeThirdPlane_dTdW(angle1, pitch1, dTdW1, angle2, pitch2, dTdW2,
    angle_target, pitch_target)] *)
Definition ComputeThirdPlane_dTdW
           (angle1 pitch1 dTdW1 angle2 pitch2 dTdW2 angle_target pitch_target : R)
  : double :=
  scale pitch_target
        (ComputeThirdPlaneSlope angle1 (quotient dTdW1 pitch1)
                                angle2 (quotient dTdW2 pitch2) angle_target).

(** [CheckIndependentPlanesOnSameTPC(pid1, pid2, caller)] of the anonymous
    namespace. *)
Definition CheckIndependentPlanesOnSameTPC (pid1 pid2 : PlaneID) : result unit :=
  if negb (TPCID_eqb (asTPCID pid1) (asTPCID pid2))
  then Throw (cet_exception "GeometryCore")
  else if PlaneID_eqb pid1 pid2 then Throw (cet_exception "GeometryCore")
  else Ok tt.

(** [GeometryCore::TPC(tpcid)] and [TPCGeo::Plane(planeid)], the
    reference-returning accessors of the absent headers: they throw when the
    element does not exist. *)
Definition TPC_at (g : GeometryCore) (id : TPCID) : result TPCGeo :=
  cryo <- Cryostat_at g (asCryostatID id) ;;
  match nth_error (TPCs cryo) (N.to_nat (TPC id)) with
  | Some tpc => Ok tpc
  | None => Throw (cet_exception "TPCOutOfRange")
  end.

Definition TPCGeo_Plane (tpc : TPCGeo) (id : PlaneID) : result PlaneGeo.t :=
  match nth_error (Planes tpc) (N.to_nat (Plane id)) with
  | Some plane => Ok plane
  | None => Throw (cet_exception "PlaneOutOfRange")
  end.

Section ThirdPlaneSlopeOfPlanes.
(** [std::atan2] of the C library. *)
Variable atan2 : R -> R -> R.

(** [PlaneGeo::PhiZ()] *)
Definition PhiZ (plane : PlaneGeo.t) : R :=
  atan2 (PlaneGeo.fSinPhiZ plane) (PlaneGeo.fCosPhiZ plane).

(** [ThirdPlaneSlope(pid1, slope1, pid2, slope2, output_plane)] *)
Definition ThirdPlaneSlope_to (g : GeometryCore) (pid1 : PlaneID) (slope1 : R)
           (pid2 : PlaneID) (slope2 : R) (output_plane : PlaneID) : result double :=
  _ <- CheckIndependentPlanesOnSameTPC pid1 pid2 ;;
  tpc <- TPC_at g (asTPCID pid1) ;;
  plane1 <- TPCGeo_Plane tpc pid1 ;;
  plane2 <- TPCGeo_Plane tpc pid2 ;;
  plane3 <- TPCGeo_Plane tpc output_plane ;;
  Ok (ComputeThirdPlaneSlope (PhiZ plane1) (num slope1) (PhiZ plane2) (num slope2)
                             (PhiZ plane3)).

(** [ThirdPlaneSlope(pid1, slope1, pid2, slope2)] *)
Definition ThirdPlaneSlope (g : GeometryCore) (pid1 : PlaneID) (slope1 : R)
           (pid2 : PlaneID) (slope2 : R) : result double :=
  target_plane <- ThirdPlane g pid1 pid2 ;;
  ThirdPlaneSlope_to g pid1 slope1 pid2 slope2 target_plane.

(** [ThirdPlane_dTdW(pid1, slope1, pid2, slope2, output_plane)] *)
Definition ThirdPlane_dTdW_to (g : GeometryCore) (pid1 : PlaneID) (slope1 : R)
           (pid2 : PlaneID) (slope2 : R) (output_plane : PlaneID) : result double :=
  _ <- CheckIndependentPlanesOnSameTPC pid1 pid2 ;;
  tpc <- TPC_at g (asTPCID pid1) ;;
  plane1 <- TPCGeo_Plane tpc pid1 ;;
  plane2 <- TPCGeo_Plane tpc pid2 ;;
  plane3 <- TPCGeo_Plane tpc output_plane ;;
  Ok (ComputeThirdPlane_dTdW
        (PhiZ plane1) (PlaneGeo.WirePitch plane1) slope1
        (PhiZ plane2) (PlaneGeo.WirePitch plane2) slope2
        (PhiZ plane3) (PlaneGeo.WirePitch plane3)).

(** [ThirdPlane_dTdW(pid1, slope1, pid2, slope2)] *)
Definition ThirdPlane_dTdW (g : GeometryCore) (pid1 : PlaneID) (slope1 : R)
           (pid2 : PlaneID) (slope2 : R) : result double :=
  target_plane <- ThirdPlane g pid1 pid2 ;;
  ThirdPlane_dTdW_to g pid1 slope1 pid2 slope2 target_plane.
End ThirdPlaneSlopeOfPlanes.

(** ** Intersections by channel and in space (GeometryCore.cxx) *)

Section MoreIntersections.
Variable IntersectLines : R -> R -> R -> R -> R -> R -> R -> R -> bool * (R * R).
Variable PointWithinSegments :
  R -> R -> R -> R -> R -> R -> R -> R -> R -> R -> bool.
(** [ChannelMapAlg::ChannelToWire], of the channel mapping in use. *)
Variable ChannelToWire : N -> list WireID.
(** [WiresIntersectionAndOffsets(wire1, wire2)]: the point of [wire1]
    closest to [wire2], and its offsets from the centers of the two
    wires. *)
Variable WiresIntersectionAndOffsets : WireGeo -> WireGeo -> Point_t * (R * R).

(** [ChannelsIntersect(c1, c2, y, z)]: the flag and the values left in [y]
    and [z], which the early exits do not touch. *)
Definition ChannelsIntersect (g : GeometryCore) (c1 c2 : N) (y z : coord)
  : result (bool * (coord * coord)) :=
  let chan1wires := ChannelToWire c1 in
  match chan1wires with
  | [] => Ok (false, (y, z))
  | w1 :: more1 =>
      let chan2wires := ChannelToWire c2 in
      match chan2wires with
      | [] => Ok (false, (y, z))
      | w2 :: more2 =>
          if (1 <? List.length chan1wires)%nat then Ok (false, (y, z))
          else if (1 <? List.length chan2wires)%nat then Ok (false, (y, z))
          else
            r <- WireIDsIntersect IntersectLines PointWithinSegments g w1 w2 ;;
            Ok (fst r, (WireIDIntersection.y (snd r), WireIDIntersection.z (snd r)))
      end
  end.

(** [WireIDsIntersect(wid1, wid2, intersection)], the variant that returns a
    point in space: the flag and the three coordinates of
    [intersection]. *)
Definition WireIDsIntersect_point (g : GeometryCore) (wid1 wid2 : WireID)
  : result (bool * (coord * coord * coord)) :=
  if negb (WireIDIntersectionCheck g wid1 wid2)
  then Ok (false, (infinity, infinity, infinity))
  else
    wire1 <- Wire_at g wid1 ;;
    wire2 <- Wire_at g wid2 ;;
    let '(point, (offset1, offset2)) := WiresIntersectionAndOffsets wire1 wire2 in
    let within :=
      negb (Rltb (HalfL wire1) (Rabs offset1)) && negb (Rltb (HalfL wire2) (Rabs offset2)) in
    Ok (within, (finite (getX point), finite (getY point), finite (getZ point))).
End MoreIntersections.

(** ** Counting (GeometryCore.cxx) *)

(** [MaxTPCs()] *)
Definition MaxTPCs (g : GeometryCore) : N :=
  fold_left (fun maxTPCs cryo =>
               let maxTPCsInCryo := NTPC cryo in
               if (maxTPCs <? maxTPCsInCryo)%N then maxTPCsInCryo else maxTPCs)
            (Cryostats g) 0%N.

(** [MaxPlanes()] *)
Definition MaxPlanes (g : GeometryCore) : N :=
  fold_left (fun maxPlanes cryo =>
               let maxPlanesInCryo := MaxPlanes_cryo cryo in
               if (maxPlanes <? maxPlanesInCryo)%N then maxPlanesInCryo else maxPlanes)
            (Cryostats g) 0%N.

(** The optical detectors of the cryostats number [0 .. k-1]. *)
Definition below (g : GeometryCore) (k : nat) : N :=
  OpDetNumbering.expectedOpDet g 0 (N.of_nat k).

(** ** More of PlaneGeo.h *)

Module PlaneGeoInline.
Local Open Scope R_scope.

(** [DriftPoint(position, distance)]: [position -= distance *
    GetNormalDirection()]. *)
Definition DriftPoint_by (p : PlaneGeo.t) (position : Point_t) (distance : R) : Point_t :=
  vsub position (vscale distance (PlaneGeo.fNormal p)).

(** [DriftPoint(position)] *)
Definition DriftPoint (p : PlaneGeo.t) (position : Point_t) : Point_t :=
  DriftPoint_by p position (PlaneGeo.DistanceFromPlane p position).

(** [ClosestWireID(geo::WireID const& wireid)] *)
Definition ClosestWireID_of (p : PlaneGeo.t) (wireid : WireID) : WireID :=
  if negb (PlaneID_eqb (asPlaneID wireid) (PlaneGeo.ID p))
  then mkWireID (markInvalid_plane (asPlaneID wireid)) (Wire wireid)
  else PlaneGeo.ClosestWireID p (Wire wireid).

(** [FirstWire()], [MiddleWire()], [LastWire()] *)
Definition FirstWire (p : PlaneGeo.t) : result WireGeo := PlaneGeo.Wire p 0.
Definition MiddleWire (p : PlaneGeo.t) : result WireGeo :=
  PlaneGeo.Wire p (PlaneGeo.Nwires p / 2)%N.
Definition LastWire (p : PlaneGeo.t) : result WireGeo :=
  PlaneGeo.Wire p (uint_sub (PlaneGeo.Nwires p) 1).
End PlaneGeoInline.

(** ** Navigation of the tree of ROOT nodes (GeometryCore.cxx)

    A [TGeoNode] of ROOT, as far as the navigation code reads it: the name
    of the node, the name of its volume, and the daughter nodes in order
    ([GetNdaughters()], [GetDaughter(i)]; the nodes [GetNode(i)] of the
    volume are the same sequence). *)

Local Unset Elimination Schemes.
Inductive TGeoNode : Type :=
| mkTGeoNode (name volumeName : string) (daughters : list TGeoNode).
Local Set Elimination Schemes.

Definition GetVolumeName (n : TGeoNode) : string :=
  match n with mkTGeoNode _ volumeName _ => volumeName end.
Definition GetDaughters (n : TGeoNode) : list TGeoNode :=
  match n with mkTGeoNode _ _ daughters => daughters end.
Definition GetNdaughters (n : TGeoNode) : nat := List.length (GetDaughters n).
Definition GetDaughter (n : TGeoNode) (i : nat) : option TGeoNode :=
  nth_error (GetDaughters n) i.

(** Number of nodes of a tree, and its nodes in the two orders of a
    depth-first visit. *)
Fixpoint nodeCount (n : TGeoNode) : nat :=
  match n with
  | mkTGeoNode _ _ daughters => S (list_sum (map nodeCount daughters))
  end.

Fixpoint postorder (n : TGeoNode) : list TGeoNode :=
  match n with
  | mkTGeoNode _ _ daughters => flat_map postorder daughters ++ [n]
  end.


(** The paths from the node [n], reached along [above] (outermost node
    first), to each node of its tree, in post-order. *)
Fixpoint postorderPaths (above : list TGeoNode) (n : TGeoNode)
  : list (list TGeoNode) :=
  match n with
  | mkTGeoNode _ _ daughters =>
      flat_map (postorderPaths (above ++ [n])) daughters ++ [above ++ [n]]
  end.

(** A path from the outermost node inwards: each node is a daughter of the
    one before. *)
Fixpoint downwardPath (path : list TGeoNode) : Prop :=
  match path with
  | a :: (b :: _) as rest => In b (GetDaughters a) /\ downwardPath rest
  | _ => True
  end.

Module ROOTGeoNodeForwardIterator.

(** [NodeInfo_t]: a node and its position among the daughters of its
    parent. *)
Definition NodeInfo_t : Type := (TGeoNode * nat)%type.

(** [current_path], innermost node first: the head of the list is
    [current_path.back()], [push_back] is [cons] and [pop_back] is
    [tl]. *)
Definition path_t : Type := list NodeInfo_t.

(** The loop of [reach_deepest_descendant()], from the node
    [descendent]. *)
Fixpoint descend (descendent : TGeoNode) (current_path : path_t) : path_t :=
  match descendent with
  | mkTGeoNode _ _ (daughter0 :: _) => descend daughter0 ((daughter0, 0%nat) :: current_path)
  | mkTGeoNode _ _ [] => current_path
  end.

(** [reach_deepest_descendant()]; it is called on a non-empty path. *)
Definition reach_deepest_descendant (current_path : path_t) : path_t :=
  match current_path with
  | (self, _) :: _ => descend self current_path
  | [] => []
  end.

(** The constructor, from [start_node] ([None] is the null pointer). *)
Definition start (start_node : option TGeoNode) : path_t :=
  match start_node with
  | Some n => reach_deepest_descendant [(n, 0%nat)]
  | None => []
  end.

(** [operator*()]: the current node, or the null pointer. *)
Definition current (current_path : path_t) : option TGeoNode :=
  match current_path with
  | (self, _) :: _ => Some self
  | [] => None
  end.

(** [operator++()] *)
Definition next (current_path : path_t) : path_t :=
  match current_path with
  | [] => []
  | [_] => []
  | (_, sibling) :: ((parent, _) :: _) as above =>
      if (S sibling <? GetNdaughters parent)%nat
      then match GetDaughter parent (S sibling) with
           | Some self => reach_deepest_descendant ((self, S sibling) :: above)
           | None => above
           end
      else above
  end.

(** [get_path()]: the nodes of the path, outermost first. *)
Definition get_path (current_path : path_t) : list TGeoNode :=
  rev (map fst current_path).

(** The states the iterator goes through while it visits the tree of [n],
    which is the daughter number [sibling] of the innermost node of
    [above]. *)
Fixpoint subtreeStates (n : TGeoNode) (sibling : nat) (above : path_t)
  : list path_t :=
  match n with
  | mkTGeoNode _ _ daughters =>
      (fix layer (i : nat) (l : list TGeoNode) : list path_t :=
         match l with
         | [] => []
         | d :: t => subtreeStates d i ((n, sibling) :: above) ++ layer (S i) t
         end) 0%nat daughters ++ [(n, sibling) :: above]
  end.

Fixpoint layerStates (me : path_t) (i : nat) (l : list TGeoNode) : list path_t :=
  match l with
  | [] => []
  | d :: t => subtreeStates d i me ++ layerStates me (S i) t
  end.

(** The states from [s] on, until the iterator is exhausted. *)
Fixpoint statesFrom (fuel : nat) (s : path_t) : option (list path_t) :=
  match s with
  | [] => Some []
  | _ :: _ =>
      match fuel with
      | O => None
      | S fuel' => option_map (cons s) (statesFrom fuel' (next s))
      end
  end.

(** The current nodes of a sequence of states. *)
Definition currentNodes (states : list path_t) : list TGeoNode :=
  flat_map (fun s => match current s with Some n => [n] | None => [] end) states.
End ROOTGeoNodeForwardIterator.

Section FindVolumes.
(** The set of volume names to look for. *)
Variable vol_names : list string.

(** [NodeNameMatcherClass::operator()]; the pointer to the set is built from
    a reference and is never null. *)
Definition NodeNameMatcher (node : TGeoNode) : bool :=
  existsb (String.eqb (GetVolumeName node)) vol_names.

(** The [while] loop of [FindAllVolumes]; [fuel] bounds the number of
    iterations, and [None] is returned when it runs out. *)
Fixpoint FindAllVolumes_loop (fuel : nat) (iNode : ROOTGeoNodeForwardIterator.path_t)
         (nodes : list TGeoNode) : option (list TGeoNode) :=
  match ROOTGeoNodeForwardIterator.current iNode with
  | None => Some nodes
  | Some pCurrentNode =>
      match fuel with
      | O => None
      | S fuel' =>
          FindAllVolumes_loop fuel' (ROOTGeoNodeForwardIterator.next iNode)
            (if NodeNameMatcher pCurrentNode then nodes ++ [pCurrentNode] else nodes)
      end
  end.

(** [FindAllVolumes(vol_names)], on the tree under [top]. *)
Definition FindAllVolumes (fuel : nat) (top : option TGeoNode) : option (list TGeoNode) :=
  FindAllVolumes_loop fuel (ROOTGeoNodeForwardIterator.start top) [].

(** The [while] loop of [FindAllVolumePaths]. *)
Fixpoint FindAllVolumePaths_loop (fuel : nat) (iNode : ROOTGeoNodeForwardIterator.path_t)
         (paths : list (list TGeoNode)) : option (list (list TGeoNode)) :=
  match ROOTGeoNodeForwardIterator.current iNode with
  | None => Some paths
  | Some pCurrentNode =>
      match fuel with
      | O => None
      | S fuel' =>
          FindAllVolumePaths_loop fuel' (ROOTGeoNodeForwardIterator.next iNode)
            (if NodeNameMatcher pCurrentNode
             then paths ++ [ROOTGeoNodeForwardIterator.get_path iNode]
             else paths)
      end
  end.

(** [FindAllVolumePaths(vol_names)] *)
Definition FindAllVolumePaths (fuel : nat) (top : option TGeoNode)
  : option (list (list TGeoNode)) :=
  FindAllVolumePaths_loop fuel (ROOTGeoNodeForwardIterator.start top) [].
End FindVolumes.

(** The innermost node of a path given outermost node first, and the test
    of the matcher on it. *)
Definition lastNode (path : list TGeoNode) : option TGeoNode := hd_error (rev path).

Definition pathMatches (vol_names : list string) (path : list TGeoNode) : bool :=
  match lastNode path with
  | Some n => NodeNameMatcher vol_names n
  | None => false
  end.

Section FindFirst.
Variable name : string.





End FindFirst.

(** A small tree of nodes for the concrete runs: the world holds the
    detector enclosure, which holds a cryostat, and an auxiliary
    detector. *)
Module SampleTree.
Definition cryostatNode : TGeoNode := mkTGeoNode "volCryostat_0" "volCryostat" [].
Definition enclosureNode : TGeoNode :=
  mkTGeoNode "volDetEnclosure_0" "volDetEnclosure" [cryostatNode].
Definition auxDetNode : TGeoNode := mkTGeoNode "volAuxDet_0" "volAuxDet" [].
Definition worldNode : TGeoNode :=
  mkTGeoNode "volWorld_1" "volWorld" [enclosureNode; auxDetNode].
End SampleTree.

(** * Properties *)

(** ** Boolean tests on reals *)

Lemma Rltb_true (a b : R) : Rltb a b = true <-> (a < b)%R.
Proof. unfold Rltb; destruct (Rlt_dec a b); split; intros; congruence || assumption. Qed.

Lemma Rltb_false (a b : R) : Rltb a b = false <-> (b <= a)%R.
Proof.
  unfold Rltb; destruct (Rlt_dec a b); split; intros; try congruence; lra.
Qed.

Lemma Rneqb_true (a b : R) : Rneqb a b = true <-> a <> b.
Proof.
  unfold Rneqb; destruct (Req_dec_T a b); split; intros; congruence.
Qed.

Lemma Rneqb_false (a b : R) : Rneqb a b = false <-> a = b.
Proof.
  unfold Rneqb; destruct (Req_dec_T a b); split; intros; congruence.
Qed.

(** ** The example detector is well formed *)

Module SampleFacts.
Import Sample.
Local Open Scope R_scope.

Lemma wireFrame_orthonormal : Decomposer.orthonormal wireFrame.
Proof.
  unfold Decomposer.orthonormal, wireFrame, dot, cross; simpl.
  repeat split; try lra. f_equal; lra.
Qed.

Lemma boxFrame_orthonormal : Decomposer.orthonormal boxFrame.
Proof.
  unfold Decomposer.orthonormal, boxFrame, dot, cross; simpl.
  repeat split; try lra. f_equal; lra.
Qed.

Lemma straightPlane_constructed (p : N) : PlaneGeo.constructed (straightPlane p).
Proof.
  unfold PlaneGeo.constructed.
  split; [exact wireFrame_orthonormal|].
  split; [exact boxFrame_orthonormal|].
  split; [simpl; lra|].
  intros i w Hw. exists 0.
  destruct i as [|[|[|i]]]; simpl in Hw.
  - injection Hw as <-. unfold wireAt, vadd, vscale; simpl. f_equal; lra.
  - injection Hw as <-. unfold wireAt, vadd, vscale; simpl. f_equal; lra.
  - injection Hw as <-. unfold wireAt, vadd, vscale; simpl. f_equal; lra.
  - destruct i; discriminate.
Qed.
End SampleFacts.

(** ** Third plane slope *)

Section ThirdPlaneSlopeFacts.
Local Open Scope R_scope.

Lemma quotient_num (a b : R) : b <> 0 -> quotient a b = num (a / b).
Proof.
  intros H. unfold quotient. apply Rneqb_true in H. now rewrite H.
Qed.

Lemma quotient_inf (a : R) : a <> 0 -> quotient a 0 = inf.
Proof.
  intros H. unfold quotient.
  assert (E : Rneqb 0 0 = false) by now apply Rneqb_false.
  apply Rneqb_true in H. now rewrite E, H.
Qed.

Lemma quotient_nan : quotient 0 0 = nan.
Proof.
  unfold quotient.
  assert (E : Rneqb 0 0 = false) by now apply Rneqb_false.
  now rewrite E.
Qed.

Lemma inverseAboveThreshold_above (slope : R) :
  Rabs slope > 0.001 -> inverseAboveThreshold (num slope) = Some (1 / slope).
Proof.
  intros H. unfold inverseAboveThreshold, Rgtb.
  assert (E : Rltb 0.001 (Rabs slope) = true) by (apply Rltb_true; lra).
  now rewrite E.
Qed.

Lemma inverseAboveThreshold_not_above (slope : R) :
  ~ Rabs slope > 0.001 -> inverseAboveThreshold (num slope) = None.
Proof.
  intros H. unfold inverseAboveThreshold, Rgtb.
  assert (E : Rltb 0.001 (Rabs slope) = false) by (apply Rltb_false; lra).
  now rewrite E.
Qed.

Lemma both_above_not_both_below (slope1 slope2 : R) :
  Rabs slope1 > 0.001 ->
  belowThreshold (num slope1) && belowThreshold (num slope2) = false.
Proof.
  intros H1. apply andb_false_iff. left. apply Rltb_false. lra.
Qed.

Lemma computedSlope3_above (angle1 slope1 angle2 slope2 angle3 : R) :
  Rabs slope1 > 0.001 -> Rabs slope2 > 0.001 ->
  computedSlope3 angle1 (num slope1) angle2 (num slope2) angle3 =
  thirdPlaneInverseSlope angle1 (1 / slope1) angle2 (1 / slope2) angle3.
Proof.
  intros H1 H2. unfold computedSlope3.
  now rewrite (inverseAboveThreshold_above slope1 H1),
    (inverseAboveThreshold_above slope2 H2).
Qed.

(** What [ComputeThirdPlaneSlope] returns for two slopes above the
    threshold, by the divisor [d] and the dividend [n] of the quotient. *)
Lemma ComputeThirdPlaneSlope_above_cases (angle1 slope1 angle2 slope2 angle3 : R) :
  Rabs slope1 > 0.001 -> Rabs slope2 > 0.001 ->
  let n := (1 / slope1) * sin (angle3 - angle2)
           - (1 / slope2) * sin (angle3 - angle1) in
  let d := sin (angle1 - angle2) in
  (d <> 0 -> n <> 0 ->
   ComputeThirdPlaneSlope angle1 (num slope1) angle2 (num slope2) angle3
   = num (1 / (n / d))) /\
  (d <> 0 -> n = 0 ->
   ComputeThirdPlaneSlope angle1 (num slope1) angle2 (num slope2) angle3 = num 999) /\
  (d = 0 -> n <> 0 ->
   ComputeThirdPlaneSlope angle1 (num slope1) angle2 (num slope2) angle3 = num 0) /\
  (d = 0 -> n = 0 ->
   ComputeThirdPlaneSlope angle1 (num slope1) angle2 (num slope2) angle3 = nan).
Proof.
  intros H1 H2 n d.
  unfold ComputeThirdPlaneSlope.
  rewrite (both_above_not_both_below slope1 slope2 H1). cbv zeta.
  rewrite (computedSlope3_above angle1 slope1 angle2 slope2 angle3 H1 H2).
  unfold thirdPlaneInverseSlope. fold n. fold d.
  repeat split.
  - intros Hd Hn. rewrite (quotient_num n d Hd). cbn [nonzero inverse].
    assert (Hq : n / d <> 0).
    { unfold Rdiv. apply Rmult_integral_contrapositive. split; [assumption|].
      now apply Rinv_neq_0_compat. }
    apply Rneqb_true in Hq as E. rewrite E. now apply quotient_num.
  - intros Hd Hn. rewrite (quotient_num n d Hd). cbn [nonzero].
    assert (Hq : n / d = 0) by (rewrite Hn; unfold Rdiv; apply Rmult_0_l).
    apply Rneqb_false in Hq as E. now rewrite E.
  - intros Hd Hn. rewrite Hd, (quotient_inf n Hn). reflexivity.
  - intros Hd Hn. rewrite Hd, Hn, quotient_nan. reflexivity.
Qed.

(** C1. When both input slopes exceed the threshold 0.001 in magnitude and
    [sin(angle1 - angle2)] is not zero, the slope returned by
    [ComputeThirdPlaneSlope] satisfies
    [1/slope3 = ((1/slope1) sin(angle3-angle2) - (1/slope2) sin(angle3-angle1))
    / sin(angle1-angle2)], and the sentinel 999 is returned when that
    quotient is zero.  When [sin(angle1 - angle2)] is zero the code divides
    by zero: it returns a NaN when the dividend is zero as well, and zero,
    the inverse of an infinity, otherwise. *)
Theorem ComputeThirdPlaneSlope_identity
        (angle1 slope1 angle2 slope2 angle3 : R) :
  Rabs slope1 > 0.001 -> Rabs slope2 > 0.001 ->
  let n := (1 / slope1) * sin (angle3 - angle2)
           - (1 / slope2) * sin (angle3 - angle1) in
  let d := sin (angle1 - angle2) in
  (d <> 0 -> n / d <> 0 ->
   exists slope3 : R,
     ComputeThirdPlaneSlope angle1 (num slope1) angle2 (num slope2) angle3
     = num slope3 /\
     1 / slope3 = n / d) /\
  (d <> 0 -> n / d = 0 ->
   ComputeThirdPlaneSlope angle1 (num slope1) angle2 (num slope2) angle3 = num 999) /\
  (d = 0 -> n <> 0 ->
   ComputeThirdPlaneSlope angle1 (num slope1) angle2 (num slope2) angle3 = num 0) /\
  (d = 0 -> n = 0 ->
   ComputeThirdPlaneSlope angle1 (num slope1) angle2 (num slope2) angle3 = nan).
Proof.
  intros H1 H2 n d.
  destruct (ComputeThirdPlaneSlope_above_cases angle1 slope1 angle2 slope2 angle3 H1 H2)
    as (A & B & C & D).
  fold n in A, B, C, D. fold d in A, B, C, D.
  repeat split; try assumption.
  - intros Hd Hq.
    assert (Hn : n <> 0).
    { intros E. apply Hq. rewrite E. unfold Rdiv. apply Rmult_0_l. }
    exists (1 / (n / d)). split; [now apply A|]. field. now split.
  - intros Hd Hq. apply B; [assumption|].
    unfold Rdiv in Hq. apply Rmult_integral in Hq as [Hq | Hq]; [assumption|].
    now apply Rinv_neq_0_compat in Hd.
Qed.

Lemma Rabs_one_above : Rabs 1 > 0.001.
Proof. rewrite Rabs_pos_eq; lra. Qed.

Lemma Rabs_minus_one_above : Rabs (-1) > 0.001.
Proof. unfold Rabs; destruct (Rcase_abs (-1)); lra. Qed.

Lemma Rabs_two_three_above : Rabs 2 > 0.001 /\ Rabs 3 > 0.001.
Proof. rewrite !Rabs_pos_eq; lra. Qed.

Lemma sin_1_pos : 0 < sin 1.
Proof. apply sin_gt_0; [lra|]. pose proof PI2_1. lra. Qed.

Lemma sin_2_pos : 0 < sin 2.
Proof. apply sin_gt_0; [lra|]. pose proof PI2_3_2. lra. Qed.

(** Two planes at angles [1] and [-1], slopes [1] and [-1], target plane
    at angle [0]: the inverse slope vanishes. *)
Lemma symmetric_inverse_slope_zero :
  thirdPlaneInverseSlope 1 (1 / 1) (-1) (1 / -1) 0 = num 0.
Proof.
  unfold thirdPlaneInverseSlope.
  replace (0 - -1) with 1 by lra.
  replace (0 - 1) with (Ropp 1) by lra.
  replace (1 - -1) with 2 by lra.
  rewrite sin_neg.
  pose proof sin_2_pos.
  rewrite quotient_num by lra.
  f_equal. field. lra.
Qed.

(** A target plane at the angle of the first plane: the inverse slope is
    the inverse of the first slope. *)
Lemma same_angle_inverse_slope :
  thirdPlaneInverseSlope (PI / 2) (1 / 2) 0 (1 / 3) (PI / 2) = num (1 / 2).
Proof.
  unfold thirdPlaneInverseSlope.
  replace (PI / 2 - 0) with (PI / 2) by lra.
  replace (PI / 2 - PI / 2) with 0 by lra.
  rewrite sin_PI2, sin_0.
  rewrite quotient_num by lra.
  f_equal. field.
Qed.

Lemma ComputeThirdPlaneSlope_identity_witness :
  (Rabs 2 > 0.001 /\ Rabs 3 > 0.001 /\
   exists slope3 : R,
     ComputeThirdPlaneSlope (PI / 2) (num 2) 0 (num 3) (PI / 2) = num slope3 /\
     1 / slope3 = 1 / 2) /\
  (Rabs 1 > 0.001 /\ Rabs (-1) > 0.001 /\
   ComputeThirdPlaneSlope 1 (num 1) (-1) (num (-1)) 0 = num 999) /\
  (Rabs 1 > 0.001 /\ Rabs 2 > 0.001 /\
   ComputeThirdPlaneSlope 0 (num 1) 0 (num 2) 1 = num 0) /\
  (Rabs 1 > 0.001 /\
   ComputeThirdPlaneSlope 0 (num 1) 0 (num 1) 0 = nan).
Proof.
  split; [|split; [|split]].
  - split; [apply Rabs_two_three_above|]. split; [apply Rabs_two_three_above|].
    assert (Hd : sin (PI / 2 - 0) = 1)
      by (replace (PI / 2 - 0) with (PI / 2) by lra; apply sin_PI2).
    assert (Hn : 1 / 2 * sin (PI / 2 - 0) - 1 / 3 * sin (PI / 2 - PI / 2) = 1 / 2).
    { rewrite Hd. replace (PI / 2 - PI / 2) with 0 by lra. rewrite sin_0. lra. }
    destruct (proj1 (ComputeThirdPlaneSlope_identity (PI / 2) 2 0 3 (PI / 2)
                       (proj1 Rabs_two_three_above) (proj2 Rabs_two_three_above)))
      as (slope3 & E & I).
    + rewrite Hd. lra.
    + rewrite Hn, Hd. lra.
    + exists slope3. split; [exact E|]. rewrite I, Hn, Hd. lra.
  - split; [apply Rabs_one_above|]. split; [apply Rabs_minus_one_above|].
    apply (proj1 (proj2 (ComputeThirdPlaneSlope_identity 1 1 (-1) (-1) 0
                           Rabs_one_above Rabs_minus_one_above))).
    + replace (1 - -1) with 2 by lra. pose proof sin_2_pos. lra.
    + replace (0 - -1) with 1 by lra.
      replace (0 - 1) with (Ropp 1) by lra.
      rewrite sin_neg. unfold Rdiv at 3. apply Rmult_eq_0_compat_r. lra.
  - split; [apply Rabs_one_above|]. split; [apply Rabs_two_three_above|].
    apply (proj1 (proj2 (proj2 (ComputeThirdPlaneSlope_identity 0 1 0 2 1
                           Rabs_one_above (proj1 Rabs_two_three_above))))).
    + replace (0 - 0) with 0 by lra. apply sin_0.
    + replace (1 - 0) with 1 by lra. pose proof sin_1_pos. lra.
  - split; [apply Rabs_one_above|].
    apply (proj2 (proj2 (proj2 (ComputeThirdPlaneSlope_identity 0 1 0 1 0
                           Rabs_one_above Rabs_one_above)))).
    + replace (0 - 0) with 0 by lra. apply sin_0.
    + replace (0 - 0) with 0 by lra. rewrite sin_0. lra.
Defined.

(** The claim as stated fails for two measured planes at the same angle:
    with the three angles 0 and both slopes 1, above the threshold, the code
    divides zero by [sin(0)], which is zero, and returns the inverse of the
    NaN it gets: the result is no number, and no equation holds of it. *)
Lemma ComputeThirdPlaneSlope_no_number_at_equal_angles :
  Rabs 1 > 0.001 /\
  ComputeThirdPlaneSlope 0 (num 1) 0 (num 1) 0 = nan /\
  ~ (exists slope3 : R,
       ComputeThirdPlaneSlope 0 (num 1) 0 (num 1) 0 = num slope3).
Proof.
  assert (E : ComputeThirdPlaneSlope 0 (num 1) 0 (num 1) 0 = nan).
  { unfold ComputeThirdPlaneSlope.
    rewrite (both_above_not_both_below 1 1 Rabs_one_above). cbv zeta.
    rewrite (computedSlope3_above 0 1 0 1 0 Rabs_one_above Rabs_one_above).
    unfold thirdPlaneInverseSlope.
    replace (0 - 0) with 0 by lra. rewrite sin_0.
    replace (1 / 1 * 0 - 1 / 1 * 0) with 0 by lra.
    rewrite quotient_nan. reflexivity. }
  split; [apply Rabs_one_above|]. split; [exact E|].
  intros [slope3 H]. rewrite E in H. discriminate.
Qed.

(** C4. [ComputeThirdPlaneSlope] returns the threshold 0.001 itself when
    both input slopes are below it in magnitude, whatever the angles; and
    when it gets past that test and the computed [slope3] is exactly
    zero, it returns the sentinel 999 instead of dividing. *)
Theorem ComputeThirdPlaneSlope_edge_policy
        (angle1 slope1 angle2 slope2 angle3 : R) :
  (Rabs slope1 < 0.001 -> Rabs slope2 < 0.001 ->
   ComputeThirdPlaneSlope angle1 (num slope1) angle2 (num slope2) angle3
   = num 0.001) /\
  (~ (Rabs slope1 < 0.001 /\ Rabs slope2 < 0.001) ->
   computedSlope3 angle1 (num slope1) angle2 (num slope2) angle3 = num 0 ->
   ComputeThirdPlaneSlope angle1 (num slope1) angle2 (num slope2) angle3
   = num 999).
Proof.
  unfold ComputeThirdPlaneSlope. split.
  - intros H1 H2. cbn [belowThreshold].
    apply Rltb_true in H1. apply Rltb_true in H2. now rewrite H1, H2.
  - intros Hnot H0.
    assert (E : belowThreshold (num slope1) && belowThreshold (num slope2) = false).
    { apply not_true_is_false. intros Hb. apply andb_true_iff in Hb.
      destruct Hb as [Hb1 Hb2]. apply Hnot.
      split; apply Rltb_true; assumption. }
    rewrite E. cbv zeta. rewrite H0. cbn [nonzero].
    assert (E0 : Rneqb 0 0 = false) by (now apply Rneqb_false).
    now rewrite E0.
Qed.

Lemma ComputeThirdPlaneSlope_edge_policy_witness :
  ComputeThirdPlaneSlope 0 (num 0) 0 (num 0) 0 = num 0.001 /\
  ComputeThirdPlaneSlope 1 (num 1) (-1) (num (-1)) 0 = num 999.
Proof.
  split.
  - apply (ComputeThirdPlaneSlope_edge_policy 0 0 0 0 0);
      rewrite Rabs_R0; lra.
  - apply (ComputeThirdPlaneSlope_edge_policy 1 1 (-1) (-1) 0).
    + intros [H _]. pose proof Rabs_one_above. lra.
    + rewrite (computedSlope3_above 1 1 (-1) (-1) 0 Rabs_one_above Rabs_minus_one_above).
      exact symmetric_inverse_slope_zero.
Defined.
End ThirdPlaneSlopeFacts.

(** ** Frame decomposition *)

Section DecompositionFacts.
Local Open Scope R_scope.

(** On an orthonormal frame, composition undoes decomposition. *)
Lemma Decomposer_roundtrip (f : Decomposer.t) (P : Point_t) :
  Decomposer.orthonormal f ->
  Decomposer.ComposePoint f (Decomposer.DecomposePoint f P) = P.
Proof.
  destruct f as [[rx ry rz] [ax ay az] [bx by_ bz] [nx ny nz]].
  destruct P as [px py pz].
  unfold Decomposer.orthonormal, dot, cross; simpl.
  intros (HA & HB & HAB & HN).
  injection HN as -> -> ->.
  unfold Decomposer.ComposePoint, Decomposer.ComposeVector,
    Decomposer.DecomposePoint, Decomposer.DecomposeVector,
    Decomposer.ProjectVectorOnPlane, Decomposer.VectorNormalComponent,
    Decomposer.VectorMainComponent, Decomposer.VectorSecondaryComponent,
    Decomposer.ToVector, vadd, vsub, vscale, dot; simpl.
  f_equal; nsatz.
Qed.

(** A point of an orthonormal frame displaced by [l] along the main axis
    and by [s] along the secondary axis has secondary component [s]. *)
Lemma Decomposer_secondary_of_offset (f : Decomposer.t) (l s : R) :
  Decomposer.orthonormal f ->
  Decomposer.PointSecondaryComponent f
    (vadd (Decomposer.ReferencePoint f)
          (vadd (vscale l (Decomposer.MainDir f))
                (vscale s (Decomposer.SecondaryDir f)))) = s.
Proof.
  destruct f as [[rx ry rz] [ax ay az] [bx by_ bz] [nx ny nz]].
  unfold Decomposer.orthonormal, dot, cross; simpl.
  intros (HA & HB & HAB & _).
  unfold Decomposer.PointSecondaryComponent,
    Decomposer.VectorSecondaryComponent, Decomposer.ToVector,
    vadd, vsub, vscale, dot; simpl.
  nsatz.
Qed.

(** C2. On a constructed plane, composing the decomposition of a point
    gives the point back, in the wire frame ([ComposePoint] after
    [DecomposePoint]) and in the width/depth frame ([ComposePoint] after
    [DecomposePointWidthDepth]).  In real arithmetic the equality is
    exact. *)
Theorem PlaneGeo_compose_decompose (plane : PlaneGeo.t) (P : Point_t) :
  PlaneGeo.constructed plane ->
  PlaneGeo.ComposePoint plane (PlaneGeo.DecomposePoint plane P) = P /\
  PlaneGeo.ComposePointWidthDepth plane
    (PlaneGeo.DecomposePointWidthDepth plane P) = P.
Proof.
  intros (Hw & Hf & _). split.
  - apply Decomposer_roundtrip; assumption.
  - apply Decomposer_roundtrip; assumption.
Qed.

Lemma PlaneGeo_compose_decompose_witness :
  PlaneGeo.constructed (Sample.straightPlane 0) /\
  PlaneGeo.ComposePoint (Sample.straightPlane 0)
    (PlaneGeo.DecomposePoint (Sample.straightPlane 0) (mkXYZ 3 5 7))
  = mkXYZ 3 5 7.
Proof.
  split; [exact (SampleFacts.straightPlane_constructed 0)|].
  apply (PlaneGeo_compose_decompose (Sample.straightPlane 0) (mkXYZ 3 5 7)
           (SampleFacts.straightPlane_constructed 0)).
Defined.

(** C7 (amended). At the center of the wire number [i] of a constructed
    plane, [PlaneCoordinate] is [i] times the pitch and [WireCoordinate]
    is [i]: the wire coordinate is in units of the pitch. *)
Theorem WireCoordinate_at_wire_center
        (plane : PlaneGeo.t) (i : nat) (w : WireGeo) :
  PlaneGeo.constructed plane ->
  nth_error (PlaneGeo.fWire plane) i = Some w ->
  PlaneGeo.PlaneCoordinate plane (GetCenter w) = INR i * PlaneGeo.WirePitch plane /\
  PlaneGeo.WireCoordinate plane (GetCenter w) = INR i.
Proof.
  intros (Hw & _ & Hpitch & Hwires) Hnth.
  destruct (Hwires i w Hnth) as [l Hc].
  assert (HP : PlaneGeo.PlaneCoordinate plane (GetCenter w)
               = INR i * PlaneGeo.WirePitch plane).
  { unfold PlaneGeo.PlaneCoordinate. rewrite Hc.
    apply Decomposer_secondary_of_offset. assumption. }
  split; [exact HP|].
  unfold PlaneGeo.WireCoordinate. rewrite HP.
  unfold PlaneGeo.WirePitch. field. lra.
Qed.

Lemma WireCoordinate_at_wire_center_witness :
  PlaneGeo.WireCoordinate (Sample.straightPlane 0)
    (GetCenter (Sample.wireAt 2)) = INR 1.
Proof.
  apply (WireCoordinate_at_wire_center (Sample.straightPlane 0) 1
           (Sample.wireAt 2) (SampleFacts.straightPlane_constructed 0)).
  reflexivity.
Defined.

(** The claim as stated fails on the second wire of a constructed plane
    of pitch 2: the wire coordinate of its center is 1, not 1 * 2. *)
Lemma WireCoordinate_not_index_times_pitch :
  PlaneGeo.constructed (Sample.straightPlane 0) /\
  nth_error (PlaneGeo.fWire (Sample.straightPlane 0)) 1 = Some (Sample.wireAt 2) /\
  PlaneGeo.WireCoordinate (Sample.straightPlane 0) (GetCenter (Sample.wireAt 2))
  <> INR 1 * PlaneGeo.WirePitch (Sample.straightPlane 0).
Proof.
  split; [exact (SampleFacts.straightPlane_constructed 0)|].
  split; [reflexivity|].
  unfold PlaneGeo.WireCoordinate, PlaneGeo.PlaneCoordinate,
    Decomposer.PointSecondaryComponent, Decomposer.VectorSecondaryComponent,
    Decomposer.ToVector, vsub, dot; simpl.
  lra.
Qed.
End DecompositionFacts.

(** ** Wire end points *)

Section WireEndPointsFacts.
Local Open Scope R_scope.

(** What the two swaps guarantee on every pair of end points. *)
Lemma WireEndPoints_order_spec (seg : Point_t * Point_t) :
  let xyzStart := fst (WireEndPoints_order seg) in
  let xyzEnd := snd (WireEndPoints_order seg) in
  (0.01 <= Rabs (getZ xyzEnd - getZ xyzStart) -> getZ xyzStart < getZ xyzEnd) /\
  (Rabs (getZ xyzEnd - getZ xyzStart) < 0.01 ->
   getY xyzStart <= getY xyzEnd /\ getZ xyzStart - 0.01 < getZ xyzEnd) /\
  ((xyzStart, xyzEnd) = seg \/ (xyzStart, xyzEnd) = (snd seg, fst seg)).
Proof.
  destruct seg as [s e]. unfold WireEndPoints_order.
  destruct (Rltb (getZ e) (getZ s)) eqn:E1;
    [apply Rltb_true in E1 | apply Rltb_false in E1].
  - destruct (Rltb (getY s) (getY e)) eqn:E2;
      [apply Rltb_true in E2 | apply Rltb_false in E2];
      (destruct (Rltb (Rabs (getZ s - getZ e)) 0.01) eqn:E3;
       [apply Rltb_true in E3 | apply Rltb_false in E3]);
      cbn [andb fst snd]; revert E3; unfold Rabs;
      repeat destruct Rcase_abs; intros; repeat split; auto; try lra.
  - destruct (Rltb (getY e) (getY s)) eqn:E2;
      [apply Rltb_true in E2 | apply Rltb_false in E2];
      (destruct (Rltb (Rabs (getZ e - getZ s)) 0.01) eqn:E3;
       [apply Rltb_true in E3 | apply Rltb_false in E3]);
      cbn [andb fst snd]; revert E3; unfold Rabs;
      repeat destruct Rcase_abs; intros; repeat split; auto; try lra.
Qed.

Lemma WireEndPoints_returns (g : GeometryCore) (wireid : WireID) :
  HasWire g wireid = true ->
  exists w, WirePtr g wireid = Some w /\
            WireEndPoints g wireid = Ok (WireEndPoints_order (GetStart w, GetEnd w)).
Proof.
  unfold HasWire, WireEndPoints, WireEndPoints_segment, Wire_at, WirePtr.
  destruct (PlanePtr g (asPlaneID wireid)) as [plane|]; [|discriminate].
  unfold PlaneGeo.WirePtr. intros H. rewrite H.
  destruct (nth_error (PlaneGeo.fWire plane) (N.to_nat (Wire wireid))) as [w|] eqn:E.
  - exists w. split; reflexivity.
  - exfalso. apply nth_error_None in E.
    unfold PlaneGeo.HasWire, PlaneGeo.Nwires in H.
    apply N.ltb_lt in H. lia.
Qed.

(** C9 (amended). For an existing wire, [WireEndPoints] returns the two
    end points of the wire in an order such that: when they differ in z by
    0.01 or more, the end point has the larger z; when they differ in z by
    less than 0.01, the end point has the higher or equal y (and its z is
    above the start's minus 0.01). *)
Theorem WireEndPoints_normalized (g : GeometryCore) (wireid : WireID) :
  HasWire g wireid = true ->
  exists xyzStart xyzEnd : Point_t,
    WireEndPoints g wireid = Ok (xyzStart, xyzEnd) /\
    (0.01 <= Rabs (getZ xyzEnd - getZ xyzStart) -> getZ xyzStart < getZ xyzEnd) /\
    (Rabs (getZ xyzEnd - getZ xyzStart) < 0.01 ->
     getY xyzStart <= getY xyzEnd /\ getZ xyzStart - 0.01 < getZ xyzEnd).
Proof.
  intros H. destruct (WireEndPoints_returns g wireid H) as (w & _ & E).
  pose proof (WireEndPoints_order_spec (GetStart w, GetEnd w)) as S.
  destruct (WireEndPoints_order (GetStart w, GetEnd w)) as [s e].
  exists s, e. split; [exact E|]. cbn [fst snd] in S. tauto.
Qed.

Lemma WireEndPoints_normalized_witness :
  HasWire Sample.detector (WireID_of 0 0 0 1) = true /\
  exists xyzStart xyzEnd : Point_t,
    WireEndPoints Sample.detector (WireID_of 0 0 0 1) = Ok (xyzStart, xyzEnd) /\
    (0.01 <= Rabs (getZ xyzEnd - getZ xyzStart) -> getZ xyzStart < getZ xyzEnd) /\
    (Rabs (getZ xyzEnd - getZ xyzStart) < 0.01 ->
     getY xyzStart <= getY xyzEnd /\ getZ xyzStart - 0.01 < getZ xyzEnd).
Proof.
  split; [reflexivity|].
  apply (WireEndPoints_normalized Sample.detector (WireID_of 0 0 0 1)).
  reflexivity.
Defined.

(** The claim as stated fails on the nearly vertical wire of plane 2: the
    y tie-break swaps the end points, and the end point is left with the
    lower z. *)
Lemma WireEndPoints_end_below_start :
  HasWire Sample.detector (WireID_of 0 0 2 0) = true /\
  WireEndPoints Sample.detector (WireID_of 0 0 2 0)
  = Ok (mkXYZ 0 0 0.005, mkXYZ 0 1 0) /\
  getZ (mkXYZ 0 1 0) < getZ (mkXYZ 0 0 0.005).
Proof.
  split; [reflexivity|]. split; [|simpl; lra].
  unfold WireEndPoints, WireEndPoints_segment, Wire_at, WirePtr; simpl.
  unfold WireEndPoints_order; simpl.
  assert (E1 : Rltb 0.005 0 = false) by (apply Rltb_false; lra).
  assert (E2 : Rltb 0 1 = true) by (apply Rltb_true; lra).
  assert (E3 : Rltb (Rabs (0.005 - 0)) 0.01 = true).
  { apply Rltb_true. rewrite Rabs_pos_eq; lra. }
  rewrite E1. cbn [getY getZ]. rewrite E2, E3. reflexivity.
Qed.
End WireEndPointsFacts.

(** ** Wire intersection *)

Section IntersectionFacts.
Variable IntersectLines : R -> R -> R -> R -> R -> R -> R -> R -> bool * (R * R).
Variable PointWithinSegments :
  R -> R -> R -> R -> R -> R -> R -> R -> R -> R -> bool.

(** The check fails on wires of different TPCs, on wires of the same
    plane, and on a wire that does not exist. *)
Lemma WireIDIntersectionCheck_fails (g : GeometryCore) (wid1 wid2 : WireID) :
  TPCID_eqb (asTPCID (asPlaneID wid1)) (asTPCID (asPlaneID wid2)) = false \/
  PlaneID_eqb (asPlaneID wid1) (asPlaneID wid2) = true \/
  HasWire g wid1 = false \/
  HasWire g wid2 = false ->
  WireIDIntersectionCheck g wid1 wid2 = false.
Proof.
  unfold WireIDIntersectionCheck, PlaneID_eqb.
  intros [H | [H | [H | H]]].
  - now rewrite H.
  - apply andb_true_iff in H as [Ht Hp]. now rewrite Ht, Hp.
  - rewrite H.
    destruct (TPCID_eqb _ _); [|reflexivity].
    destruct (N.eqb _ _); reflexivity.
  - rewrite H.
    destruct (TPCID_eqb _ _); [|reflexivity].
    destruct (N.eqb _ _); [reflexivity|].
    destruct (HasWire g wid1); reflexivity.
Qed.

(** C3. When the two wires are on different TPCs, or on the same plane,
    or one of the wire numbers is out of range, [WireIDsIntersect]
    returns normally (it does not throw) with the flag [false] and both
    coordinates set to infinity, whatever the geometry of the wires and
    whatever the line-intersection helpers would compute. *)
Theorem WireIDsIntersect_precondition_failure
        (g : GeometryCore) (wid1 wid2 : WireID) :
  TPCID_eqb (asTPCID (asPlaneID wid1)) (asTPCID (asPlaneID wid2)) = false \/
  PlaneID_eqb (asPlaneID wid1) (asPlaneID wid2) = true \/
  HasWire g wid1 = false \/
  HasWire g wid2 = false ->
  WireIDsIntersect IntersectLines PointWithinSegments g wid1 wid2
  = Ok (false, WireIDIntersection.mk infinity infinity InvalidID).
Proof.
  intros H. unfold WireIDsIntersect.
  now rewrite (WireIDIntersectionCheck_fails g wid1 wid2 H).
Qed.
End IntersectionFacts.

Lemma WireIDsIntersect_precondition_failure_witness :
  PlaneID_eqb (asPlaneID (WireID_of 0 0 0 0)) (asPlaneID (WireID_of 0 0 0 1)) = true /\
  WireIDsIntersect (fun _ _ _ _ _ _ _ _ => (true, (0%R, 0%R)))
                   (fun _ _ _ _ _ _ _ _ _ _ => true)
                   Sample.detector (WireID_of 0 0 0 0) (WireID_of 0 0 0 1)
  = Ok (false, WireIDIntersection.mk infinity infinity InvalidID).
Proof.
  split; [reflexivity|].
  apply (WireIDsIntersect_precondition_failure
           (fun _ _ _ _ _ _ _ _ => (true, (0%R, 0%R)))
           (fun _ _ _ _ _ _ _ _ _ _ => true)
           Sample.detector (WireID_of 0 0 0 0) (WireID_of 0 0 0 1)).
  right; left; reflexivity.
Defined.

(** ** Third plane *)

Section ThirdPlaneFacts.
Local Open Scope N_scope.

Lemma ThirdPlane_wrong_plane_count (g : GeometryCore) (pid1 pid2 : PlaneID) :
  Nplanes g (asTPCID pid1) <> 3 ->
  ThirdPlane g pid1 pid2 = Throw (cet_exception "GeometryCore").
Proof.
  intros H. unfold ThirdPlane.
  apply N.eqb_neq in H. now rewrite H.
Qed.

Lemma ThirdPlane_same_plane_number (g : GeometryCore) (pid1 pid2 : PlaneID) :
  Plane pid1 = Plane pid2 ->
  ThirdPlane g pid1 pid2 = Throw (cet_exception "GeometryCore").
Proof.
  intros H. unfold ThirdPlane.
  destruct (Nplanes g (asTPCID pid1) =? 3) eqn:E; [|reflexivity].
  apply N.eqb_eq in E. rewrite E. cbn [negb].
  change (planeNumbers 3) with [0; 1; 2].
  cbn [ThirdPlane_loop]. rewrite <- H, !orb_diag.
  destruct (Plane pid1) as [|[[]|[]|]]; reflexivity.
Qed.

Lemma ThirdPlane_remaining (g : GeometryCore) (pid1 pid2 : PlaneID) :
  Nplanes g (asTPCID pid1) = 3 ->
  Plane pid1 < 3 -> Plane pid2 < 3 -> Plane pid1 <> Plane pid2 ->
  exists target_plane,
    ThirdPlane g pid1 pid2 = Ok (mkPlaneID (asTPCID pid1) target_plane) /\
    target_plane < 3 /\
    target_plane <> Plane pid1 /\ target_plane <> Plane pid2 /\
    forall p, p < 3 -> p <> Plane pid1 -> p <> Plane pid2 -> p = target_plane.
Proof.
  intros E H1 H2 Hne. unfold ThirdPlane. rewrite E. cbn [negb N.eqb Pos.eqb].
  change (planeNumbers 3) with [0; 1; 2].
  destruct pid1 as [tpc1 p1], pid2 as [tpc2 p2]. cbn [Plane asTPCID] in *.
  assert (C1 : p1 = 0 \/ p1 = 1 \/ p1 = 2) by lia.
  assert (C2 : p2 = 0 \/ p2 = 1 \/ p2 = 2) by lia.
  destruct C1 as [-> | [-> | ->]], C2 as [-> | [-> | ->]];
    try congruence; cbn;
    [exists 2 | exists 1 | exists 2 | exists 0 | exists 1 | exists 0];
    (split; [reflexivity|]); repeat split; try lia; intros; lia.
Qed.

Lemma TPCPtr_eqb (g : GeometryCore) (a b : TPCID) :
  TPCID_eqb a b = true -> TPCPtr g a = TPCPtr g b.
Proof.
  unfold TPCID_eqb, CryostatID_eqb, TPCPtr, CryostatPtr.
  intros H. apply andb_true_iff in H as [Hc Ht].
  apply N.eqb_eq in Hc. apply N.eqb_eq in Ht. now rewrite Hc, Ht.
Qed.

Lemma HasPlane_in_range (g : GeometryCore) (pid : PlaneID) :
  HasPlane g pid = true -> Plane pid < Nplanes g (asTPCID pid).
Proof.
  unfold HasPlane, PlanePtr, Nplanes, Nplanes_tpc.
  destruct (TPCPtr g (asTPCID pid)) as [tpc|]; [|discriminate].
  destruct (nth_error (Planes tpc) (N.to_nat (Plane pid))) eqn:E; [|discriminate].
  intros _.
  assert (N.to_nat (Plane pid) < List.length (Planes tpc))%nat
    by (apply nth_error_Some; congruence).
  lia.
Qed.

(** The loop of [ThirdPlane] on a TPC with three planes finds one plane
    only when the two plane numbers are two different numbers below 3;
    otherwise it meets a second plane that is neither of the two. *)
Lemma ThirdPlane_too_many_planes (g : GeometryCore) (pid1 pid2 : PlaneID) :
  Plane pid1 = Plane pid2 \/ 3 <= Plane pid1 \/ 3 <= Plane pid2 ->
  ThirdPlane g pid1 pid2 = Throw (cet_exception "GeometryCore").
Proof.
  intros H. unfold ThirdPlane.
  destruct (Nplanes g (asTPCID pid1) =? 3) eqn:E; [|reflexivity].
  apply N.eqb_eq in E. rewrite E. cbn [negb].
  change (planeNumbers 3) with [0; 1; 2].
  cbn [ThirdPlane_loop].
  destruct (N.eqb_spec 0 (Plane pid1)), (N.eqb_spec 1 (Plane pid1)),
           (N.eqb_spec 2 (Plane pid1)),
           (N.eqb_spec 0 (Plane pid2)), (N.eqb_spec 1 (Plane pid2)),
           (N.eqb_spec 2 (Plane pid2));
    try reflexivity; exfalso; lia.
Qed.

(** C5. [ThirdPlane(pid1, pid2)] throws when the TPC of [pid1] does not
    have exactly 3 planes (in particular when it has 4), when the two
    identifiers are the same plane, and also when they are different
    planes with the same plane number, or when one of the two plane numbers
    is not below 3: of [pid2] the code reads the plane number only.  When
    the TPC of [pid1] has exactly 3 planes and the two plane numbers are
    different numbers below 3, it returns the identifier, in the TPC of
    [pid1], of the one plane of that TPC that is neither of the two. *)
Theorem ThirdPlane_spec (g : GeometryCore) (pid1 pid2 : PlaneID) :
  (Nplanes g (asTPCID pid1) <> 3 -> throws (ThirdPlane g pid1 pid2)) /\
  (Nplanes g (asTPCID pid1) = 4 -> throws (ThirdPlane g pid1 pid2)) /\
  (PlaneID_eqb pid1 pid2 = true -> throws (ThirdPlane g pid1 pid2)) /\
  (Plane pid1 = Plane pid2 -> throws (ThirdPlane g pid1 pid2)) /\
  (3 <= Plane pid1 -> throws (ThirdPlane g pid1 pid2)) /\
  (3 <= Plane pid2 -> throws (ThirdPlane g pid1 pid2)) /\
  (Nplanes g (asTPCID pid1) = 3 ->
   Plane pid1 < 3 -> Plane pid2 < 3 -> Plane pid1 <> Plane pid2 ->
   exists target_plane,
     ThirdPlane g pid1 pid2 = Ok (mkPlaneID (asTPCID pid1) target_plane) /\
     HasPlane g (mkPlaneID (asTPCID pid1) target_plane) = true /\
     target_plane <> Plane pid1 /\ target_plane <> Plane pid2 /\
     forall p, HasPlane g (mkPlaneID (asTPCID pid1) p) = true ->
               p <> Plane pid1 -> p <> Plane pid2 -> p = target_plane).
Proof.
  repeat split.
  - intros H. eexists. apply ThirdPlane_wrong_plane_count. assumption.
  - intros H. eexists. apply ThirdPlane_wrong_plane_count. lia.
  - intros H. eexists. apply ThirdPlane_same_plane_number.
    unfold PlaneID_eqb in H. apply andb_true_iff in H as [_ H].
    now apply N.eqb_eq in H.
  - intros H. eexists. apply ThirdPlane_too_many_planes. now left.
  - intros H. eexists. apply ThirdPlane_too_many_planes. right. now left.
  - intros H. eexists. apply ThirdPlane_too_many_planes. right. now right.
  - intros E R1 R2 Hne.
    destruct (ThirdPlane_remaining g pid1 pid2 E R1 R2 Hne)
      as (t & Ht1 & Ht2 & Ht3 & Ht4 & Ht5).
    exists t. repeat split; try assumption.
    + unfold HasPlane, PlanePtr. cbn [asTPCID Plane].
      unfold Nplanes, Nplanes_tpc in E.
      destruct (TPCPtr g (asTPCID pid1)) as [tpc|]; [|discriminate].
      destruct (nth_error (Planes tpc) (N.to_nat t)) eqn:En; [reflexivity|].
      apply nth_error_None in En. lia.
    + intros p Hp3 Hp4 Hp5. apply Ht5; try assumption.
      pose proof (HasPlane_in_range g _ Hp3) as R3.
      cbn [asTPCID Plane] in R3. now rewrite E in R3.
Qed.

Lemma ThirdPlane_spec_witness :
  throws (ThirdPlane Sample.detector (PlaneID_of 0 1 0) (PlaneID_of 0 1 1)) /\
  throws (ThirdPlane Sample.detector (PlaneID_of 0 0 0) (PlaneID_of 0 0 3)) /\
  exists target_plane,
    ThirdPlane Sample.detector (PlaneID_of 0 0 0) (PlaneID_of 0 0 1)
    = Ok (mkPlaneID (TPCID_of 0 0) target_plane) /\
    HasPlane Sample.detector (mkPlaneID (TPCID_of 0 0) target_plane) = true /\
    target_plane <> 0 /\ target_plane <> 1 /\
    forall p, HasPlane Sample.detector (mkPlaneID (TPCID_of 0 0) p) = true ->
              p <> 0 -> p <> 1 -> p = target_plane.
Proof.
  split; [|split].
  - apply (proj1 (proj2
      (ThirdPlane_spec Sample.detector (PlaneID_of 0 1 0) (PlaneID_of 0 1 1)))).
    reflexivity.
  - apply (proj1 (proj2 (proj2 (proj2 (proj2 (proj2
      (ThirdPlane_spec Sample.detector (PlaneID_of 0 0 0) (PlaneID_of 0 0 3)))))))).
    cbn [Plane PlaneID_of]. lia.
  - apply (proj2 (proj2 (proj2 (proj2 (proj2 (proj2
      (ThirdPlane_spec Sample.detector (PlaneID_of 0 0 0) (PlaneID_of 0 0 1))))))));
      cbn [Plane PlaneID_of]; (reflexivity || lia).
Defined.

(** The claim as stated fails on the TPC with three planes of the example
    detector: plane 0 of that TPC and plane 0 of the next TPC are two
    different existing planes, and so are, as identifiers, plane 0 and a
    plane 5 of the same TPC; on both pairs the code finds two planes that
    are neither of the two, and throws. *)
Lemma ThirdPlane_throws_on_distinct_planes :
  Nplanes Sample.detector (asTPCID (PlaneID_of 0 0 0)) = 3 /\
  HasPlane Sample.detector (PlaneID_of 0 0 0) = true /\
  HasPlane Sample.detector (PlaneID_of 0 1 0) = true /\
  PlaneID_eqb (PlaneID_of 0 0 0) (PlaneID_of 0 1 0) = false /\
  ThirdPlane Sample.detector (PlaneID_of 0 0 0) (PlaneID_of 0 1 0)
  = Throw (cet_exception "GeometryCore") /\
  PlaneID_eqb (PlaneID_of 0 0 0) (PlaneID_of 0 0 5) = false /\
  ThirdPlane Sample.detector (PlaneID_of 0 0 0) (PlaneID_of 0 0 5)
  = Throw (cet_exception "GeometryCore").
Proof. repeat split; reflexivity. Qed.
End ThirdPlaneFacts.

(** ** Iteration bounds *)

Section EndPlaneIDFacts.
Variable GetNextID : GeometryCore -> TPCID -> TPCID.

(** The TPC-level overload: [{next TPC, 0}] when the TPC holds a plane,
    and the begin plane identifier marked invalid otherwise. *)
Lemma GetEndPlaneID_tpc_spec (g : GeometryCore) (id : TPCID) :
  (0 < Nplanes g id)%N /\
  GetEndPlaneID_tpc GetNextID g id = mkPlaneID (GetNextID g id) 0
  \/
  Nplanes g id = 0%N /\
  GetEndPlaneID_tpc GetNextID g id = markInvalid_plane (GetBeginPlaneID_tpc id) /\
  planeValid (GetEndPlaneID_tpc GetNextID g id) = false.
Proof.
  unfold GetEndPlaneID_tpc, Nplanes.
  destruct (TPCPtr g id) as [tpc|].
  - destruct (0 <? Nplanes_tpc tpc)%N eqn:E.
    + left. apply N.ltb_lt in E. now split.
    + right. apply N.ltb_ge in E. repeat split; try reflexivity. lia.
  - right. repeat split; reflexivity.
Qed.

(** The cryostat-level overload on a cryostat that holds a plane. *)
Lemma GetEndPlaneID_cryo_nonempty (g : GeometryCore) (id : CryostatID)
      (cryo : CryostatGeo) :
  CryostatPtr g id = Some cryo ->
  (0 < MaxPlanes_cryo cryo)%N ->
  (0 < NTPC cryo)%N ->
  GetEndPlaneID_cryo g id = PlaneID_of (uint_add (Cryostat id) 1) 0 0.
Proof.
  intros Hc Hp Ht. unfold GetEndPlaneID_cryo, GetEndTPCID. rewrite Hc.
  apply N.ltb_lt in Hp. apply N.ltb_lt in Ht. now rewrite Hp, Ht.
Qed.

(** The cryostat-level overload on a cryostat that holds no plane, or that
    does not exist: the begin plane identifier, with the validity of the
    argument. *)
Lemma GetEndPlaneID_cryo_empty (g : GeometryCore) (id : CryostatID) :
  match CryostatPtr g id with
  | Some cryo => MaxPlanes_cryo cryo = 0%N
  | None => True
  end ->
  GetEndPlaneID_cryo g id = GetBeginPlaneID_cryo id /\
  planeValid (GetEndPlaneID_cryo g id) = isValid id.
Proof.
  unfold GetEndPlaneID_cryo.
  destruct (CryostatPtr g id) as [cryo|].
  - intros ->. split; reflexivity.
  - intros _. split; reflexivity.
Qed.
End EndPlaneIDFacts.

(** C8 (the code at the failing input).  Cryostat 1 of the example detector
    holds no plane.  The cryostat-level [GetEndPlaneID] returns the begin
    plane identifier [{1, 0, 0}] as it is, still valid; the sibling
    [GetEndTPCID] marks its result invalid on the same input.  The same
    happens for the identifier of a cryostat that does not exist. *)
Theorem GetEndPlaneID_cryo_not_marked_invalid :
  MaxPlanes_cryo Sample.cryo1 = 0%N /\
  GetEndPlaneID_cryo Sample.detector (CryostatID_of 1)
  = GetBeginPlaneID_cryo (CryostatID_of 1) /\
  planeValid (GetEndPlaneID_cryo Sample.detector (CryostatID_of 1)) = true /\
  isValid (asCryostatID (GetEndTPCID Sample.detector (CryostatID_of 1))) = false /\
  CryostatPtr Sample.detector (CryostatID_of 2) = None /\
  planeValid (GetEndPlaneID_cryo Sample.detector (CryostatID_of 2)) = true.
Proof. repeat split; reflexivity. Qed.

(** ** Optical detector numbering *)

Section OpDetFacts.
Import OpDetNumbering.

Lemma opdetB_not_opdetC : Sample.opdetB <> Sample.opdetC.
Proof.
  unfold Sample.opdetB, Sample.opdetC. intros H.
  injection H as H. lra.
Qed.

(** C10 (the code at the failing input).  On the example detector (one
    optical detector in cryostat 0, two in cryostat 1), with the statics
    of both functions in their initial state, [OpDetFromCryo(0, 1)] fills
    its table with the count of cryostat 1 at every step, to [0; 2; 4],
    and returns 2, where the detectors below cryostat 1 number 1; and
    [OpDetGeoFromOpDet(2)], whose table is [0; 1; 3], returns the second
    optical detector of cryostat 1, not the first. *)
Theorem OpDetFromCryo_uses_the_argument_cryostat :
  OpDetFromCryo Sample.detector 0 1 initial
  = (Ok 2%N, mkStatics true [0; 2; 4]%N 2) /\
  expectedOpDet Sample.detector 0 1 = 1%N /\
  OpDetGeoFromOpDet Sample.detector 2 initial
  = (Ok Sample.opdetC, mkStatics true [0; 1; 3]%N 2) /\
  OpDet Sample.cryo1 0 = Ok Sample.opdetB /\
  Sample.opdetB <> Sample.opdetC.
Proof.
  repeat split; try reflexivity. exact opdetB_not_opdetC.
Qed.
End OpDetFacts.

(** ** Nearest wire *)

Section NearestWireFacts.
Import NearestWire.
Local Open Scope R_scope.




(** The distance test of the model, in units of the pitch. *)
Lemma withinHalfPitch_wire_units (p : PlaneGeo.t) (pos : Point_t) (wireNo : Z) :
  0 < PlaneGeo.WirePitch p ->
  (withinHalfPitch p pos wireNo = true <->
   Rabs (IZR wireNo - PlaneGeo.WireCoordinate p pos) <= 1 / 2).
Proof.
  intros Hp. unfold withinHalfPitch, PlaneGeo.WireCoordinate.
  set (pitch := PlaneGeo.WirePitch p) in *.
  set (c := PlaneGeo.PlaneCoordinate p pos).
  assert (E : IZR wireNo * pitch - c = (IZR wireNo - c / pitch) * pitch)
    by (field; lra).
  rewrite E, Rabs_mult, (Rabs_pos_eq pitch) by lra.
  rewrite negb_true_iff, Rltb_false.
  split; intros H; nra.
Qed.



Lemma example_WireCoordinate (zc : R) :
  PlaneGeo.WireCoordinate (Sample.straightPlane 0) (mkXYZ 0 0 zc) = zc / 2.
Proof.
  unfold PlaneGeo.WireCoordinate, PlaneGeo.PlaneCoordinate,
    Decomposer.PointSecondaryComponent, Decomposer.VectorSecondaryComponent,
    Decomposer.ToVector, vsub, dot; simpl.
  field.
Qed.

(** A point 0.2 past the second wire is on wire 1. *)
Example NearestWireID_on_plane :
  NearestWireID (Sample.straightPlane 0) (mkXYZ 0 0 2.2)
  = Ok (WireID_of 0 0 0 1).
Proof.
  assert (Hr : round (PlaneGeo.WireCoordinate (Sample.straightPlane 0)
                        (mkXYZ 0 0 2.2)) = 1%Z).
  { rewrite example_WireCoordinate. unfold round. symmetry.
    apply Int_part_spec. lra. }
  unfold NearestWireID. rewrite Hr.
  change (clamp (PlaneGeo.Nwires (Sample.straightPlane 0)) 1) with 1%Z.
  assert (W : withinHalfPitch (Sample.straightPlane 0) (mkXYZ 0 0 2.2) 1 = true).
  { apply withinHalfPitch_wire_units; [simpl; lra|].
    rewrite example_WireCoordinate. apply Rabs_le. lra. }
  now rewrite W.
Qed.

(** A point 3 past the last wire: nominal wire 4, corrected to wire 2,
    signalled. *)
Example NearestWireID_off_plane :
  NearestWireID (Sample.straightPlane 0) (mkXYZ 0 0 7)
  = Throw (InvalidWireError "Geometry" 4 2).
Proof.
  assert (Hr : round (PlaneGeo.WireCoordinate (Sample.straightPlane 0)
                        (mkXYZ 0 0 7)) = 4%Z).
  { rewrite example_WireCoordinate. unfold round. symmetry.
    apply Int_part_spec. lra. }
  unfold NearestWireID. rewrite Hr.
  change (clamp (PlaneGeo.Nwires (Sample.straightPlane 0)) 4) with 2%Z.
  destruct (withinHalfPitch (Sample.straightPlane 0) (mkXYZ 0 0 7) 2) eqn:W;
    [|reflexivity].
  apply withinHalfPitch_wire_units in W; [|simpl; lra].
  rewrite example_WireCoordinate in W. revert W.
  unfold Rabs. destruct Rcase_abs; lra.
Qed.

(** [ClosestWireID] of PlaneGeo.h caps a wire number at [Nwires()], one
    past the last wire; it is not the clamp of [NearestWireID]. *)
Lemma ClosestWireID_caps_at_Nwires (p : PlaneGeo.t) (wireNo : N) :
  (PlaneGeo.Nwires p <= wireNo)%N ->
  Wire (PlaneGeo.ClosestWireID p wireNo) = PlaneGeo.Nwires p /\
  PlaneGeo.HasWire p (Wire (PlaneGeo.ClosestWireID p wireNo)) = false.
Proof.
  intros H. unfold PlaneGeo.ClosestWireID, PlaneGeo.HasWire. cbn [Wire].
  rewrite N.min_r by assumption. split; [reflexivity|].
  apply N.ltb_irrefl.
Qed.
End NearestWireFacts.

(** * Further properties *)

(** ** Third plane slope, continued *)

Section MoreSlopeFacts.
Local Open Scope R_scope.

Lemma quotient_opp (a b : R) : quotient (- a) (- b) = quotient a b.
Proof.
  unfold quotient.
  destruct (Rneqb b 0) eqn:Eb.
  - apply Rneqb_true in Eb as Hb.
    assert (E : Rneqb (- b) 0 = true) by (apply Rneqb_true; lra).
    rewrite E. f_equal. field. assumption.
  - apply Rneqb_false in Eb as Hb.
    assert (E : Rneqb (- b) 0 = false) by (apply Rneqb_false; lra).
    rewrite E.
    destruct (Rneqb a 0) eqn:Ea.
    + apply Rneqb_true in Ea as Ha.
      assert (E' : Rneqb (- a) 0 = true) by (apply Rneqb_true; lra).
      now rewrite E'.
    + apply Rneqb_false in Ea as Ha.
      assert (E' : Rneqb (- a) 0 = false) by (apply Rneqb_false; lra).
      now rewrite E'.
Qed.

Lemma thirdPlaneInverseSlope_sym (angle1 inverse1 angle2 inverse2 angle3 : R) :
  thirdPlaneInverseSlope angle2 inverse2 angle1 inverse1 angle3 =
  thirdPlaneInverseSlope angle1 inverse1 angle2 inverse2 angle3.
Proof.
  unfold thirdPlaneInverseSlope.
  replace (angle2 - angle1) with (- (angle1 - angle2)) by ring.
  rewrite sin_neg, <- quotient_opp, Ropp_involutive.
  f_equal. ring.
Qed.

(** Exchanging the two measured planes, for slopes of any value. *)
Lemma ComputeThirdPlaneSlope_swap
      (angle1 : R) (slope1 : double) (angle2 : R) (slope2 : double) (angle3 : R) :
  ComputeThirdPlaneSlope angle2 slope2 angle1 slope1 angle3 =
  ComputeThirdPlaneSlope angle1 slope1 angle2 slope2 angle3.
Proof.
  unfold ComputeThirdPlaneSlope, computedSlope3.
  rewrite (andb_comm (belowThreshold slope2)).
  destruct (inverseAboveThreshold slope1) as [inverse1|],
           (inverseAboveThreshold slope2) as [inverse2|];
    try reflexivity.
  now rewrite thirdPlaneInverseSlope_sym.
Qed.

(** X1. The slope predicted in the third plane does not depend on the order
    in which the two measured planes are given. *)
Theorem ComputeThirdPlaneSlope_symmetric (angle1 slope1 angle2 slope2 angle3 : R) :
  ComputeThirdPlaneSlope angle2 (num slope2) angle1 (num slope1) angle3 =
  ComputeThirdPlaneSlope angle1 (num slope1) angle2 (num slope2) angle3.
Proof. apply ComputeThirdPlaneSlope_swap. Qed.

Lemma above_threshold_nonzero (slope : R) : Rabs slope > 0.001 -> slope <> 0.
Proof. intros H E. rewrite E, Rabs_R0 in H. lra. Qed.

(** X2. Asked for the slope in one of the two measured planes, the function
    gives back the slope measured there: with both slopes above the
    threshold and the two planes at angles whose difference has a non-zero
    sine, [angle3 = angle1] gives [slope1] and [angle3 = angle2] gives
    [slope2]. *)
Theorem ComputeThirdPlaneSlope_on_input_plane (angle1 slope1 angle2 slope2 : R) :
  Rabs slope1 > 0.001 -> Rabs slope2 > 0.001 ->
  sin (angle1 - angle2) <> 0 ->
  ComputeThirdPlaneSlope angle1 (num slope1) angle2 (num slope2) angle1 = num slope1 /\
  ComputeThirdPlaneSlope angle1 (num slope1) angle2 (num slope2) angle2 = num slope2.
Proof.
  intros H1 H2 Hs.
  pose proof (above_threshold_nonzero slope1 H1) as N1.
  pose proof (above_threshold_nonzero slope2 H2) as N2.
  assert (I1 : 1 / slope1 <> 0)
    by (unfold Rdiv; rewrite Rmult_1_l; now apply Rinv_neq_0_compat).
  assert (I2 : 1 / slope2 <> 0)
    by (unfold Rdiv; rewrite Rmult_1_l; now apply Rinv_neq_0_compat).
  assert (Q1 : 1 / slope1 * sin (angle1 - angle2) - 1 / slope2 * sin (angle1 - angle1)
               = 1 / slope1 * sin (angle1 - angle2)).
  { replace (angle1 - angle1) with 0 by ring. rewrite sin_0. ring. }
  assert (Q2 : 1 / slope1 * sin (angle2 - angle2) - 1 / slope2 * sin (angle2 - angle1)
               = 1 / slope2 * sin (angle1 - angle2)).
  { replace (angle2 - angle2) with 0 by ring. rewrite sin_0.
    replace (angle2 - angle1) with (- (angle1 - angle2)) by ring.
    rewrite sin_neg. ring. }
  split.
  - rewrite (proj1 (ComputeThirdPlaneSlope_above_cases
                      angle1 slope1 angle2 slope2 angle1 H1 H2)).
    + rewrite Q1. f_equal. field. now split.
    + assumption.
    + rewrite Q1. now apply Rmult_integral_contrapositive.
  - rewrite (proj1 (ComputeThirdPlaneSlope_above_cases
                      angle1 slope1 angle2 slope2 angle2 H1 H2)).
    + rewrite Q2. f_equal. field. now split.
    + assumption.
    + rewrite Q2. now apply Rmult_integral_contrapositive.
Qed.

Lemma ComputeThirdPlaneSlope_on_input_plane_witness :
  ComputeThirdPlaneSlope (PI / 2) (num 2) 0 (num 3) (PI / 2) = num 2 /\
  ComputeThirdPlaneSlope (PI / 2) (num 2) 0 (num 3) 0 = num 3.
Proof.
  apply (ComputeThirdPlaneSlope_on_input_plane (PI / 2) 2 0 3).
  - rewrite Rabs_pos_eq; lra.
  - rewrite Rabs_pos_eq; lra.
  - replace (PI / 2 - 0) with (PI / 2) by lra. rewrite sin_PI2. lra.
Defined.

(** Unless both slopes are above the threshold, [slope3] keeps its initial
    value. *)
Lemma computedSlope3_not_above (angle1 slope1 angle2 slope2 angle3 : R) :
  ~ (Rabs slope1 > 0.001 /\ Rabs slope2 > 0.001) ->
  computedSlope3 angle1 (num slope1) angle2 (num slope2) angle3 = num 0.001.
Proof.
  intros Ha. unfold computedSlope3.
  destruct (Rgt_dec (Rabs slope1) 0.001) as [G1|G1].
  - rewrite (inverseAboveThreshold_above slope1 G1).
    destruct (Rgt_dec (Rabs slope2) 0.001) as [G2|G2]; [tauto|].
    now rewrite (inverseAboveThreshold_not_above slope2 G2).
  - now rewrite (inverseAboveThreshold_not_above slope1 G1).
Qed.

(** What [ComputeThirdPlaneSlope] returns when the two slopes are not both
    above the threshold: the threshold when both are below it, and its
    inverse otherwise. *)
Lemma ComputeThirdPlaneSlope_not_above (angle1 slope1 angle2 slope2 angle3 : R) :
  ~ (Rabs slope1 > 0.001 /\ Rabs slope2 > 0.001) ->
  ComputeThirdPlaneSlope angle1 (num slope1) angle2 (num slope2) angle3 =
  if belowThreshold (num slope1) && belowThreshold (num slope2)
  then num 0.001 else num 1000.
Proof.
  intros Ha. unfold ComputeThirdPlaneSlope.
  destruct (belowThreshold (num slope1) && belowThreshold (num slope2));
    [reflexivity|].
  cbv zeta.
  rewrite (computedSlope3_not_above angle1 slope1 angle2 slope2 angle3 Ha).
  cbn [nonzero inverse].
  assert (E3 : Rneqb 0.001 0 = true) by (apply Rneqb_true; lra).
  rewrite E3, quotient_num by lra. f_equal. lra.
Qed.

(** X3. The function returns zero or a NaN only through the division by
    [sin(angle1 - angle2)], which the code does not test: the result is
    zero exactly when both slopes are above the threshold, that sine is
    zero and the dividend is not; it is a NaN exactly when both slopes are
    above the threshold and the sine and the dividend are both zero. *)
Theorem ComputeThirdPlaneSlope_zero_or_nan_iff
        (angle1 slope1 angle2 slope2 angle3 : R) :
  let n := (1 / slope1) * sin (angle3 - angle2)
           - (1 / slope2) * sin (angle3 - angle1) in
  let d := sin (angle1 - angle2) in
  (ComputeThirdPlaneSlope angle1 (num slope1) angle2 (num slope2) angle3 = num 0 <->
   Rabs slope1 > 0.001 /\ Rabs slope2 > 0.001 /\ d = 0 /\ n <> 0) /\
  (ComputeThirdPlaneSlope angle1 (num slope1) angle2 (num slope2) angle3 = nan <->
   Rabs slope1 > 0.001 /\ Rabs slope2 > 0.001 /\ d = 0 /\ n = 0).
Proof.
  intros n d.
  destruct (Rgt_dec (Rabs slope1) 0.001) as [G1|G1].
  2: { rewrite (ComputeThirdPlaneSlope_not_above angle1 slope1 angle2 slope2 angle3)
         by tauto.
       destruct (belowThreshold (num slope1) && belowThreshold (num slope2));
         (split; (split; [intros H; inversion H; lra | tauto])). }
  destruct (Rgt_dec (Rabs slope2) 0.001) as [G2|G2].
  2: { rewrite (ComputeThirdPlaneSlope_not_above angle1 slope1 angle2 slope2 angle3)
         by tauto.
       destruct (belowThreshold (num slope1) && belowThreshold (num slope2));
         (split; (split; [intros H; inversion H; lra | tauto])). }
  destruct (ComputeThirdPlaneSlope_above_cases angle1 slope1 angle2 slope2 angle3 G1 G2)
    as (A & B & C & D).
  fold n in A, B, C, D. fold d in A, B, C, D.
  destruct (Req_dec d 0) as [Hd|Hd], (Req_dec n 0) as [Hn|Hn].
  - rewrite (D Hd Hn). split; split; try discriminate; tauto.
  - rewrite (C Hd Hn). split; split; try discriminate; tauto.
  - rewrite (B Hd Hn). split; split; try discriminate; try tauto.
    intros H. inversion H. lra.
  - rewrite (A Hd Hn). split; split; try discriminate; try tauto.
    intros H. inversion H as [H0]. exfalso.
    assert (Hq : n / d <> 0).
    { unfold Rdiv. apply Rmult_integral_contrapositive. split; [assumption|].
      now apply Rinv_neq_0_compat. }
    unfold Rdiv in H0. rewrite Rmult_1_l in H0.
    now apply (Rinv_neq_0_compat _ Hq).
Qed.

(** X4. When the two slopes are neither both below nor both above the
    threshold 0.001 (one small and one not, or one of them exactly at the
    threshold), the angles are not used and the result is 1000, the inverse
    of the threshold. *)
Theorem ComputeThirdPlaneSlope_mixed (angle1 slope1 angle2 slope2 angle3 : R) :
  ~ (Rabs slope1 < 0.001 /\ Rabs slope2 < 0.001) ->
  ~ (Rabs slope1 > 0.001 /\ Rabs slope2 > 0.001) ->
  ComputeThirdPlaneSlope angle1 (num slope1) angle2 (num slope2) angle3 = num 1000.
Proof.
  intros Hb Ha.
  rewrite (ComputeThirdPlaneSlope_not_above angle1 slope1 angle2 slope2 angle3 Ha).
  assert (E : belowThreshold (num slope1) && belowThreshold (num slope2) = false).
  { apply not_true_is_false. intros E. apply andb_true_iff in E as [E1 E2].
    apply Hb. split; now apply Rltb_true. }
  now rewrite E.
Qed.

Lemma ComputeThirdPlaneSlope_mixed_witness :
  ComputeThirdPlaneSlope 0 (num 0) 1 (num 5) 2 = num 1000.
Proof.
  apply (ComputeThirdPlaneSlope_mixed 0 0 1 5 2).
  - intros [_ H]. rewrite Rabs_pos_eq in H; lra.
  - intros [H _]. rewrite Rabs_R0 in H. lra.
Defined.

(** X5. With the same pitch in the three planes the pitch cancels: when the
    slopes are above the threshold both as given and divided by the pitch,
    the sine of the difference of the two angles is not zero and the
    inverse slope of the third plane is not zero,
    [ComputeThirdPlane_dTdW] agrees with [ComputeThirdPlaneSlope] on the
    slopes as given. *)
Theorem ComputeThirdPlane_dTdW_equal_pitches
        (angle1 dTdW1 angle2 dTdW2 angle_target pitch : R) :
  0 < pitch ->
  Rabs dTdW1 > 0.001 -> Rabs dTdW2 > 0.001 ->
  Rabs (dTdW1 / pitch) > 0.001 -> Rabs (dTdW2 / pitch) > 0.001 ->
  sin (angle1 - angle2) <> 0 ->
  computedSlope3 angle1 (num dTdW1) angle2 (num dTdW2) angle_target <> num 0 ->
  ComputeThirdPlane_dTdW angle1 pitch dTdW1 angle2 pitch dTdW2 angle_target pitch =
  ComputeThirdPlaneSlope angle1 (num dTdW1) angle2 (num dTdW2) angle_target.
Proof.
  intros Hp H1 H2 H3 H4 Hd Hq.
  pose proof (above_threshold_nonzero dTdW1 H1) as N1.
  pose proof (above_threshold_nonzero dTdW2 H2) as N2.
  rewrite (computedSlope3_above angle1 dTdW1 angle2 dTdW2 angle_target H1 H2) in Hq.
  unfold thirdPlaneInverseSlope in Hq. rewrite quotient_num in Hq by assumption.
  set (n := 1 / dTdW1 * sin (angle_target - angle2)
            - 1 / dTdW2 * sin (angle_target - angle1)) in *.
  assert (Hn : n <> 0).
  { intros E. apply Hq. rewrite E. f_equal. unfold Rdiv. apply Rmult_0_l. }
  assert (Q : 1 / (dTdW1 / pitch) * sin (angle_target - angle2)
              - 1 / (dTdW2 / pitch) * sin (angle_target - angle1) = pitch * n).
  { unfold n. field. repeat split; lra. }
  unfold ComputeThirdPlane_dTdW.
  rewrite !quotient_num by lra.
  rewrite (proj1 (ComputeThirdPlaneSlope_above_cases
                    angle1 (dTdW1 / pitch) angle2 (dTdW2 / pitch) angle_target H3 H4));
    [| assumption | rewrite Q; apply Rmult_integral_contrapositive; split; lra].
  rewrite (proj1 (ComputeThirdPlaneSlope_above_cases
                    angle1 dTdW1 angle2 dTdW2 angle_target H1 H2));
    [| assumption | exact Hn].
  fold n. rewrite Q. cbn [scale]. f_equal. field. repeat split; lra.
Qed.

Lemma ComputeThirdPlane_dTdW_equal_pitches_witness :
  ComputeThirdPlane_dTdW (PI / 2) 2 2 0 2 3 (PI / 2) 2 =
  ComputeThirdPlaneSlope (PI / 2) (num 2) 0 (num 3) (PI / 2).
Proof.
  apply (ComputeThirdPlane_dTdW_equal_pitches (PI / 2) 2 0 3 (PI / 2) 2).
  - lra.
  - rewrite Rabs_pos_eq; lra.
  - rewrite Rabs_pos_eq; lra.
  - rewrite Rabs_pos_eq; lra.
  - rewrite Rabs_pos_eq; lra.
  - replace (PI / 2 - 0) with (PI / 2) by lra. rewrite sin_PI2. lra.
  - rewrite (computedSlope3_above (PI / 2) 2 0 3 (PI / 2)
               (proj1 Rabs_two_three_above) (proj2 Rabs_two_three_above)).
    rewrite same_angle_inverse_slope. intros H. inversion H. lra.
Defined.
End MoreSlopeFacts.

(** ** Wire end points, continued *)

Section MoreWireEndPointsFacts.
Local Open Scope R_scope.

Ltac order_cases :=
  unfold WireEndPoints_order; cbn [fst snd];
  repeat match goal with
         | |- context [Rltb ?a ?b] =>
             let E := fresh "E" in
             destruct (Rltb a b) eqn:E;
             [apply Rltb_true in E | apply Rltb_false in E]
         end.

(** X6. The order chosen by [WireEndPoints] is a normal form: ordering the
    ordered pair again changes nothing. *)
Theorem WireEndPoints_order_idempotent (seg : Point_t * Point_t) :
  WireEndPoints_order (WireEndPoints_order seg) = WireEndPoints_order seg.
Proof.
  destruct seg as [s e].
  unfold WireEndPoints_order at 2.
  destruct (Rltb (getZ e) (getZ s)) eqn:E1;
    [apply Rltb_true in E1 | apply Rltb_false in E1];
  match goal with
  | |- context [Rltb (getY ?a) (getY ?b) && Rltb (Rabs ?d) 0.01] =>
      destruct (Rltb (getY a) (getY b)) eqn:E2;
      [apply Rltb_true in E2 | apply Rltb_false in E2];
      (destruct (Rltb (Rabs d) 0.01) eqn:E3;
       [apply Rltb_true in E3 | apply Rltb_false in E3])
  end; cbn [andb];
  unfold WireEndPoints_order;
  repeat match goal with
         | |- context [Rltb ?a ?b] =>
             let E := fresh "E" in
             destruct (Rltb a b) eqn:E;
             [apply Rltb_true in E | apply Rltb_false in E]
         end; cbn [andb]; try reflexivity; exfalso;
  repeat match goal with
         | H : context [Rabs ?x] |- _ =>
             revert H; unfold Rabs; destruct (Rcase_abs x); intros
         end; lra.
Qed.

(** X7. The order does not depend on which end of the wire is stored as the
    start, unless the two end points have the same y and the same z. *)
Theorem WireEndPoints_order_canonical (a b : Point_t) :
  getY a <> getY b \/ getZ a <> getZ b ->
  WireEndPoints_order (a, b) = WireEndPoints_order (b, a).
Proof.
  intros Hd. order_cases; cbn [andb]; try reflexivity; exfalso;
  repeat match goal with
         | H : context [Rabs ?x] |- _ =>
             revert H; unfold Rabs; destruct (Rcase_abs x); intros
         end; lra.
Qed.

Lemma WireEndPoints_order_canonical_witness :
  WireEndPoints_order (mkXYZ 0 1 0, mkXYZ 0 0 0.005) =
  WireEndPoints_order (mkXYZ 0 0 0.005, mkXYZ 0 1 0).
Proof.
  apply (WireEndPoints_order_canonical (mkXYZ 0 1 0) (mkXYZ 0 0 0.005)).
  left. cbn [getY]. lra.
Defined.
End MoreWireEndPointsFacts.

(** ** Third plane slope from plane identifiers *)

Section PlaneSlopeFacts.
Variable atan2 : R -> R -> R.
Local Open Scope N_scope.

Lemma TPC_at_of_TPCPtr (g : GeometryCore) (id : TPCID) (tpc : TPCGeo) :
  TPCPtr g id = Some tpc -> TPC_at g id = Ok tpc.
Proof.
  unfold TPCPtr, TPC_at, Cryostat_at.
  destruct (CryostatPtr g (asCryostatID id)) as [cryo|]; [|discriminate].
  cbn [bind]. now intros ->.
Qed.

(** X8. For two different existing planes of one TPC that has exactly three
    planes, [ThirdPlaneSlope(pid1, slope1, pid2, slope2)] returns, without
    throwing, [ComputeThirdPlaneSlope] of the [PhiZ()] angles of the two
    planes and of the one plane of the TPC that is neither of them. *)
Theorem ThirdPlaneSlope_of_three_planes
        (g : GeometryCore) (pid1 pid2 : PlaneID) (slope1 slope2 : R) :
  Nplanes g (asTPCID pid1) = 3 ->
  HasPlane g pid1 = true -> HasPlane g pid2 = true ->
  TPCID_eqb (asTPCID pid1) (asTPCID pid2) = true ->
  PlaneID_eqb pid1 pid2 = false ->
  exists (plane1 plane2 plane3 : PlaneGeo.t) (target_plane : N),
    PlanePtr g pid1 = Some plane1 /\
    PlanePtr g pid2 = Some plane2 /\
    PlanePtr g (mkPlaneID (asTPCID pid1) target_plane) = Some plane3 /\
    target_plane <> Plane pid1 /\ target_plane <> Plane pid2 /\
    ThirdPlaneSlope atan2 g pid1 slope1 pid2 slope2 =
    Ok (ComputeThirdPlaneSlope (PhiZ atan2 plane1) (num slope1)
                               (PhiZ atan2 plane2) (num slope2)
                               (PhiZ atan2 plane3)).
Proof.
  intros E Hp1 Hp2 Ht Hp.
  pose proof (HasPlane_in_range g pid1 Hp1) as R1.
  pose proof (HasPlane_in_range g pid2 Hp2) as R2.
  pose proof (TPCPtr_eqb g _ _ Ht) as Eptr.
  unfold Nplanes in R2. rewrite <- Eptr in R2.
  fold (Nplanes g (asTPCID pid1)) in R2. rewrite E in R1, R2.
  assert (Hne : Plane pid1 <> Plane pid2).
  { unfold PlaneID_eqb in Hp. rewrite Ht in Hp. cbn [andb] in Hp.
    now apply N.eqb_neq in Hp. }
  destruct (ThirdPlane_remaining g pid1 pid2 E R1 R2 Hne)
    as (t & Ht1 & Ht2 & Ht3 & Ht4 & _).
  unfold HasPlane, PlanePtr in Hp1, Hp2. rewrite <- Eptr in Hp2.
  unfold Nplanes, Nplanes_tpc in E.
  destruct (TPCPtr g (asTPCID pid1)) as [tpc|] eqn:Etpc; [|discriminate].
  destruct (nth_error (Planes tpc) (N.to_nat (Plane pid1))) as [plane1|] eqn:E1;
    [|discriminate].
  destruct (nth_error (Planes tpc) (N.to_nat (Plane pid2))) as [plane2|] eqn:E2;
    [|discriminate].
  destruct (nth_error (Planes tpc) (N.to_nat t)) as [plane3|] eqn:E3;
    [|apply nth_error_None in E3; lia].
  exists plane1, plane2, plane3, t.
  unfold PlanePtr. cbn [asTPCID Plane]. rewrite <- Eptr, Etpc.
  repeat split; try assumption.
  unfold ThirdPlaneSlope. rewrite Ht1. cbn [bind].
  unfold ThirdPlaneSlope_to, CheckIndependentPlanesOnSameTPC.
  rewrite Ht, Hp. cbn [negb bind].
  rewrite (TPC_at_of_TPCPtr g _ tpc Etpc). cbn [bind].
  unfold TPCGeo_Plane. cbn [Plane]. rewrite E1, E2, E3. reflexivity.
Qed.


(** X9. [ThirdPlane] looks only at the plane number of its second argument,
    but the slope functions built on it also require the two planes to be
    on the same TPC: when they are not, [ThirdPlaneSlope] and
    [ThirdPlane_dTdW] throw, with or without an explicit output plane. *)
Theorem ThirdPlaneSlope_different_TPC
        (g : GeometryCore) (pid1 pid2 output_plane : PlaneID) (slope1 slope2 : R) :
  TPCID_eqb (asTPCID pid1) (asTPCID pid2) = false ->
  throws (ThirdPlaneSlope atan2 g pid1 slope1 pid2 slope2) /\
  throws (ThirdPlane_dTdW atan2 g pid1 slope1 pid2 slope2) /\
  throws (ThirdPlaneSlope_to atan2 g pid1 slope1 pid2 slope2 output_plane) /\
  throws (ThirdPlane_dTdW_to atan2 g pid1 slope1 pid2 slope2 output_plane).
Proof.
  intros Ht.
  assert (A : forall out, throws (ThirdPlaneSlope_to atan2 g pid1 slope1 pid2 slope2 out)).
  { intros out. unfold ThirdPlaneSlope_to, CheckIndependentPlanesOnSameTPC.
    rewrite Ht. cbn [negb bind]. eexists. reflexivity. }
  assert (B : forall out, throws (ThirdPlane_dTdW_to atan2 g pid1 slope1 pid2 slope2 out)).
  { intros out. unfold ThirdPlane_dTdW_to, CheckIndependentPlanesOnSameTPC.
    rewrite Ht. cbn [negb bind]. eexists. reflexivity. }
  repeat split; try apply A; try apply B.
  - unfold ThirdPlaneSlope. destruct (ThirdPlane g pid1 pid2) as [t|e]; cbn [bind].
    + apply A.
    + eexists. reflexivity.
  - unfold ThirdPlane_dTdW. destruct (ThirdPlane g pid1 pid2) as [t|e]; cbn [bind].
    + apply B.
    + eexists. reflexivity.
Qed.

End PlaneSlopeFacts.

Section PlaneSlopeWitnesses.
Local Open Scope N_scope.

Lemma ThirdPlaneSlope_of_three_planes_witness :
  exists (plane1 plane2 plane3 : PlaneGeo.t) (target_plane : N),
    PlanePtr Sample.detector (PlaneID_of 0 0 0) = Some plane1 /\
    PlanePtr Sample.detector (PlaneID_of 0 0 1) = Some plane2 /\
    PlanePtr Sample.detector (mkPlaneID (TPCID_of 0 0) target_plane) = Some plane3 /\
    target_plane <> 0 /\ target_plane <> 1 /\
    ThirdPlaneSlope (fun y x : R => atan (y / x)%R) Sample.detector (PlaneID_of 0 0 0) 2 (PlaneID_of 0 0 1) 3 =
    Ok (ComputeThirdPlaneSlope (PhiZ (fun y x : R => atan (y / x)%R) plane1) (num 2) (PhiZ (fun y x : R => atan (y / x)%R) plane2) (num 3)
                               (PhiZ (fun y x : R => atan (y / x)%R) plane3)).
Proof.
  apply (ThirdPlaneSlope_of_three_planes
           (fun y x : R => atan (y / x)%R) Sample.detector (PlaneID_of 0 0 0) (PlaneID_of 0 0 1) 2 3);
    reflexivity.
Defined.

Lemma ThirdPlaneSlope_different_TPC_witness :
  ThirdPlane Sample.detector (PlaneID_of 0 0 0) (PlaneID_of 0 1 1)
  = Ok (PlaneID_of 0 0 2) /\
  throws (ThirdPlaneSlope (fun y x : R => atan (y / x)%R) Sample.detector (PlaneID_of 0 0 0) 2 (PlaneID_of 0 1 1) 3).
Proof.
  split; [reflexivity|].
  apply (ThirdPlaneSlope_different_TPC
           (fun y x : R => atan (y / x)%R) Sample.detector (PlaneID_of 0 0 0) (PlaneID_of 0 1 1) (PlaneID_of 0 0 2) 2 3).
  reflexivity.
Defined.
End PlaneSlopeWitnesses.

(** ** Intersections, continued *)

Section MoreIntersectionFacts.
Variable IntersectLines : R -> R -> R -> R -> R -> R -> R -> R -> bool * (R * R).
Variable PointWithinSegments :
  R -> R -> R -> R -> R -> R -> R -> R -> R -> R -> bool.
Variable ChannelToWire : N -> list WireID.
Variable WiresIntersectionAndOffsets : WireGeo -> WireGeo -> Point_t * (R * R).

Lemma WireIDIntersectionCheck_passes (g : GeometryCore) (wid1 wid2 : WireID) :
  WireIDIntersectionCheck g wid1 wid2 = true ->
  HasWire g wid1 = true /\ HasWire g wid2 = true.
Proof.
  unfold WireIDIntersectionCheck.
  destruct (negb (TPCID_eqb _ _)); [discriminate|].
  destruct (N.eqb _ _); [discriminate|].
  destruct (HasWire g wid1); [|discriminate].
  destruct (HasWire g wid2); [|discriminate].
  now split.
Qed.

Lemma Wire_at_existing (g : GeometryCore) (wid : WireID) :
  HasWire g wid = true -> exists w, Wire_at g wid = Ok w.
Proof.
  intros H. destruct (WireEndPoints_returns g wid H) as (w & Hw & _).
  exists w. unfold Wire_at. now rewrite Hw.
Qed.

(** X27. [WireIDIntersectionCheck] does not depend on the order of the two
    wires. *)
Theorem WireIDIntersectionCheck_symmetric (g : GeometryCore) (wid1 wid2 : WireID) :
  WireIDIntersectionCheck g wid1 wid2 = WireIDIntersectionCheck g wid2 wid1.
Proof.
  unfold WireIDIntersectionCheck, TPCID_eqb, CryostatID_eqb.
  rewrite (N.eqb_sym (Cryostat (asCryostatID (asTPCID (asPlaneID wid2))))).
  rewrite (N.eqb_sym (TPC (asTPCID (asPlaneID wid2)))).
  rewrite (N.eqb_sym (Plane (asPlaneID wid2))).
  destruct (_ && _); cbn [negb]; [|reflexivity].
  destruct (N.eqb _ _); [reflexivity|].
  destruct (HasWire g wid1), (HasWire g wid2); reflexivity.
Qed.

(** What [WireIDsIntersect] leaves in its result, on every input. *)
Lemma WireIDsIntersect_result (g : GeometryCore) (wid1 wid2 : WireID) :
  exists (found : bool) (r : WireIDIntersection.t),
    WireIDsIntersect IntersectLines PointWithinSegments g wid1 wid2 = Ok (found, r) /\
    WireIDIntersection.TPC r
    = (if found then TPC (asTPCID (asPlaneID wid1)) else InvalidID) /\
    (found = true ->
     exists y z : R,
       WireIDIntersection.y r = finite y /\ WireIDIntersection.z r = finite z).
Proof.
  unfold WireIDsIntersect.
  destruct (WireIDIntersectionCheck g wid1 wid2) eqn:C; cbn [negb].
  - apply WireIDIntersectionCheck_passes in C as [H1 H2].
    destruct (Wire_at_existing g wid1 H1) as [w1 E1].
    destruct (Wire_at_existing g wid2 H2) as [w2 E2].
    unfold WireEndPoints_segment. rewrite E1, E2. cbn [bind fst snd].
    destruct (IntersectLines _ _ _ _ _ _ _ _) as [cross [y z]].
    destruct cross; cbn [negb].
    + do 2 eexists. split; [reflexivity|]. cbn [WireIDIntersection.TPC].
      split; [reflexivity|]. intros _. exists y, z. now split.
    + exists false, (failedIntersection). split; [reflexivity|].
      split; [reflexivity | discriminate].
  - exists false, (failedIntersection). split; [reflexivity|].
    split; [reflexivity | discriminate].
Qed.

(** X10. [WireIDsIntersect] never throws, whatever identifiers it is given;
    the [TPC] it leaves in the intersection is the TPC number of the first
    wire exactly when it returns [true], and [InvalidID] otherwise; and a
    [true] result always comes with finite coordinates. *)
Theorem WireIDsIntersect_total (g : GeometryCore) (wid1 wid2 : WireID) :
  exists (found : bool) (r : WireIDIntersection.t),
    WireIDsIntersect IntersectLines PointWithinSegments g wid1 wid2 = Ok (found, r) /\
    WireIDIntersection.TPC r
    = (if found then TPC (asTPCID (asPlaneID wid1)) else InvalidID) /\
    (found = true ->
     exists y z : R,
       WireIDIntersection.y r = finite y /\ WireIDIntersection.z r = finite z).
Proof. apply WireIDsIntersect_result. Qed.

(** X11. The variant of [WireIDsIntersect] that returns a point in space
    never throws either, and a [true] result comes with three finite
    coordinates; the three coordinates are infinite exactly on the wires
    that fail [WireIDIntersectionCheck], for which the result is [false]. *)
Theorem WireIDsIntersect_point_total (g : GeometryCore) (wid1 wid2 : WireID) :
  exists (found : bool) (p : coord * coord * coord),
    WireIDsIntersect_point WiresIntersectionAndOffsets g wid1 wid2 = Ok (found, p) /\
    (WireIDIntersectionCheck g wid1 wid2 = false ->
     found = false /\ p = (infinity, infinity, infinity)) /\
    (WireIDIntersectionCheck g wid1 wid2 = true ->
     exists x y z : R, p = (finite x, finite y, finite z)).
Proof.
  unfold WireIDsIntersect_point.
  destruct (WireIDIntersectionCheck g wid1 wid2) eqn:C; cbn [negb].
  - apply WireIDIntersectionCheck_passes in C as [H1 H2].
    destruct (Wire_at_existing g wid1 H1) as [w1 E1].
    destruct (Wire_at_existing g wid2 H2) as [w2 E2].
    rewrite E1, E2. cbn [bind].
    destruct (WiresIntersectionAndOffsets w1 w2) as [point [o1 o2]].
    do 2 eexists. split; [reflexivity|]. split; [discriminate|].
    intros _. do 3 eexists. reflexivity.
  - exists false, (infinity, infinity, infinity). split; [reflexivity|].
    split; [now split | discriminate].
Qed.

(** X12. [ChannelsIntersect] never throws.  It returns [true] only when
    each of the two channels maps to exactly one wire and [WireIDsIntersect]
    returns [true] on these two wires; when one of the channels maps to no
    wire or to several, it returns [false] and leaves [y] and [z] as they
    were. *)
Theorem ChannelsIntersect_spec (g : GeometryCore) (c1 c2 : N) (y z : coord) :
  exists (found : bool) (y' z' : coord),
    ChannelsIntersect IntersectLines PointWithinSegments ChannelToWire g c1 c2 y z
    = Ok (found, (y', z')) /\
    (found = true ->
     exists (w1 w2 : WireID) (r : WireIDIntersection.t),
       ChannelToWire c1 = [w1] /\ ChannelToWire c2 = [w2] /\
       WireIDsIntersect IntersectLines PointWithinSegments g w1 w2 = Ok (true, r) /\
       y' = WireIDIntersection.y r /\ z' = WireIDIntersection.z r) /\
    (List.length (ChannelToWire c1) <> 1%nat \/ List.length (ChannelToWire c2) <> 1%nat ->
     found = false /\ y' = y /\ z' = z).
Proof.
  unfold ChannelsIntersect.
  destruct (ChannelToWire c1) as [|w1 [|w1' more1]] eqn:E1;
    try (exists false, y, z; split; [reflexivity|]; split;
         [discriminate | intros _; now repeat split]).
  - destruct (ChannelToWire c2) as [|w2 [|w2' more2]] eqn:E2;
      try (exists false, y, z; split; [reflexivity|]; split;
           [discriminate | intros _; now repeat split]).
    cbn [List.length Nat.ltb Nat.leb].
    destruct (WireIDsIntersect_result g w1 w2) as (found & r & Er & _ & _).
    rewrite Er. cbn [bind fst snd].
    exists found, (WireIDIntersection.y r), (WireIDIntersection.z r).
    split; [reflexivity|]. split.
    + intros ->. exists w1, w2, r. now repeat split.
    + cbn [List.length]. intros [H | H]; congruence.
  - destruct (ChannelToWire c2) as [|w2 more2] eqn:E2;
      exists false, y, z; (split; [reflexivity|]); split;
      try discriminate; intros _; now repeat split.
Qed.
End MoreIntersectionFacts.

(** ** Iteration bounds and counts, continued *)

Section MoreBoundsFacts.
Local Open Scope N_scope.

Lemma uint_add_one_differs (c : N) : uint_add c 1 <> c.
Proof.
  unfold uint_add, UINT_MAX. intros H.
  assert (B : (c + 1) mod 4294967296 < 4294967296) by (apply N.mod_lt; lia).
  destruct (N.lt_ge_cases (c + 1) 4294967296) as [L | L].
  - rewrite N.mod_small in H by lia. lia.
  - assert (c = 4294967295 \/ 4294967296 <= c) as [-> | G] by lia.
    + vm_compute in H. discriminate.
    + change (4294967295 + 1) with 4294967296 in *. lia.
Qed.

(** X13. The TPC range of a cryostat is empty exactly when it should be:
    [GetEndTPCID(id)] differs from [GetBeginTPCID(id)] if and only if the
    cryostat exists and holds a TPC, which is also exactly when the end
    identifier is flagged valid. *)
Theorem GetEndTPCID_range (g : GeometryCore) (id : CryostatID) :
  let nonempty :=
    match CryostatPtr g id with
    | Some cryo => 0 <? NTPC cryo
    | None => false
    end in
  TPCID_eqb (GetBeginTPCID id) (GetEndTPCID g id) = negb nonempty /\
  isValid (asCryostatID (GetEndTPCID g id)) = nonempty.
Proof.
  unfold GetEndTPCID.
  destruct (CryostatPtr g id) as [cryo|]; cbn zeta.
  - destruct (0 <? NTPC cryo); cbn [negb].
    + split; [|reflexivity].
      unfold TPCID_eqb, CryostatID_eqb, GetBeginTPCID, TPCID_of, CryostatID_of.
      cbn [asCryostatID Cryostat TPC].
      apply andb_false_iff. left. apply N.eqb_neq.
      intros E. now apply (uint_add_one_differs (Cryostat id)).
    + split; [|reflexivity].
      unfold TPCID_eqb, CryostatID_eqb, GetBeginTPCID, markInvalid_tpc, markInvalid_cryo.
      cbn [asCryostatID Cryostat TPC]. now rewrite !N.eqb_refl.
  - cbn [negb]. split; [|reflexivity].
    unfold TPCID_eqb, CryostatID_eqb, GetBeginTPCID, markInvalid_tpc, markInvalid_cryo.
    cbn [asCryostatID Cryostat TPC]. now rewrite !N.eqb_refl.
Qed.

Lemma fold_max_planes_ge (l : list TPCGeo) (m : N) :
  m <= fold_left (fun m tpc => N.max m (Nplanes_tpc tpc)) l m.
Proof.
  revert m. induction l as [|tpc l IH]; intros m; cbn [fold_left]; [lia|].
  specialize (IH (N.max m (Nplanes_tpc tpc))). lia.
Qed.

Lemma MaxPlanes_cryo_positive_has_TPC (cryo : CryostatGeo) :
  0 < MaxPlanes_cryo cryo -> 0 < NTPC cryo.
Proof.
  unfold MaxPlanes_cryo, NTPC. destruct (TPCs cryo); cbn; lia.
Qed.

(** X14. The plane range of a cryostat is empty exactly when it should be:
    the cryostat-level [GetEndPlaneID(id)] differs from
    [GetBeginPlaneID(id)] if and only if the cryostat exists and one of its
    TPCs holds a plane. *)
Theorem GetEndPlaneID_cryo_range (g : GeometryCore) (id : CryostatID) :
  PlaneID_eqb (GetBeginPlaneID_cryo id) (GetEndPlaneID_cryo g id)
  = negb match CryostatPtr g id with
         | Some cryo => 0 <? MaxPlanes_cryo cryo
         | None => false
         end.
Proof.
  unfold GetEndPlaneID_cryo.
  assert (Same : PlaneID_eqb (GetBeginPlaneID_cryo id) (GetBeginPlaneID_cryo id) = true).
  { unfold PlaneID_eqb, TPCID_eqb, CryostatID_eqb. now rewrite !N.eqb_refl. }
  destruct (CryostatPtr g id) as [cryo|] eqn:Ec; [|exact Same].
  destruct (0 <? MaxPlanes_cryo cryo) eqn:Ep; [|exact Same].
  cbn [negb]. apply N.ltb_lt in Ep.
  pose proof (MaxPlanes_cryo_positive_has_TPC cryo Ep) as Et.
  unfold GetEndTPCID. rewrite Ec. apply N.ltb_lt in Et. rewrite Et.
  unfold PlaneID_eqb, TPCID_eqb, CryostatID_eqb, GetBeginPlaneID_cryo, GetBeginTPCID,
    TPCID_of, CryostatID_of.
  cbn [asTPCID asCryostatID Cryostat TPC Plane].
  assert (E : (Cryostat id =? uint_add (Cryostat id) 1) = false).
  { apply N.eqb_neq. intros E. now apply (uint_add_one_differs (Cryostat id)). }
  now rewrite E.
Qed.

Lemma fold_max_spec {A : Type} (f : A -> N) (l : list A) (m0 : N) :
  let r := fold_left (fun m x => if m <? f x then f x else m) l m0 in
  m0 <= r /\ (forall x, In x l -> f x <= r) /\
  (r = m0 \/ exists x, In x l /\ f x = r).
Proof.
  revert m0. induction l as [|a l IH]; intros m0; cbn [fold_left].
  - repeat split; [lia | intros x [] | now left].
  - specialize (IH (if m0 <? f a then f a else m0)).
    cbv zeta in IH. destruct IH as (I1 & I2 & I3).
    destruct (m0 <? f a) eqn:E;
      [apply N.ltb_lt in E | apply N.ltb_ge in E].
    + repeat split; [lia | |].
      * intros x [<- | Hx]; [lia | now apply I2].
      * right. destruct I3 as [I3 | (x & Hx & Ex)].
        -- exists a. split; [now left | now symmetry].
        -- exists x. split; [now right | assumption].
    + repeat split; [lia | |].
      * intros x [<- | Hx]; [lia | now apply I2].
      * destruct I3 as [I3 | (x & Hx & Ex)]; [now left|].
        right. exists x. split; [now right | assumption].
Qed.

(** X15. [MaxTPCs()] is the largest number of TPCs held by a cryostat, and
    [MaxPlanes()] the largest [MaxPlanes()] of a cryostat: no cryostat
    exceeds them, and each is 0 or attained by some cryostat. *)
Theorem MaxTPCs_MaxPlanes_are_maxima (g : GeometryCore) :
  (forall cryo, In cryo (Cryostats g) -> NTPC cryo <= MaxTPCs g) /\
  (MaxTPCs g = 0 \/ exists cryo, In cryo (Cryostats g) /\ NTPC cryo = MaxTPCs g) /\
  (forall cryo, In cryo (Cryostats g) -> MaxPlanes_cryo cryo <= MaxPlanes g) /\
  (MaxPlanes g = 0 \/
   exists cryo, In cryo (Cryostats g) /\ MaxPlanes_cryo cryo = MaxPlanes g).
Proof.
  pose proof (fold_max_spec NTPC (Cryostats g) 0) as (_ & T2 & T3).
  pose proof (fold_max_spec MaxPlanes_cryo (Cryostats g) 0) as (_ & P2 & P3).
  unfold MaxTPCs, MaxPlanes. repeat split; assumption.
Qed.
End MoreBoundsFacts.

(** ** Wires of a plane *)

Section PlaneWireFacts.
Import PlaneGeoInline.

(** X16. [ClosestWireID(wireNo)] gives an existing wire only for a wire
    number that exists, which it returns unchanged; a number at or past the
    end is capped to [Nwires()], one past the last wire.  On a wire
    identifier of another plane, the overload on [WireID] returns the
    identifier itself, marked invalid. *)
Theorem ClosestWireID_exists_iff (p : PlaneGeo.t) (wireNo : N) (wireid : WireID) :
  PlaneGeo.HasWire p (Wire (PlaneGeo.ClosestWireID p wireNo)) = PlaneGeo.HasWire p wireNo /\
  (PlaneGeo.HasWire p wireNo = true -> Wire (PlaneGeo.ClosestWireID p wireNo) = wireNo) /\
  (PlaneGeo.HasWire p wireNo = false ->
   Wire (PlaneGeo.ClosestWireID p wireNo) = PlaneGeo.Nwires p) /\
  (PlaneID_eqb (asPlaneID wireid) (PlaneGeo.ID p) = false ->
   ClosestWireID_of p wireid = mkWireID (markInvalid_plane (asPlaneID wireid)) (Wire wireid)) /\
  (PlaneID_eqb (asPlaneID wireid) (PlaneGeo.ID p) = true ->
   ClosestWireID_of p wireid = PlaneGeo.ClosestWireID p (Wire wireid)).
Proof.
  unfold PlaneGeo.ClosestWireID, PlaneGeo.HasWire, ClosestWireID_of. cbn [Wire].
  repeat split.
  - destruct (wireNo <? PlaneGeo.Nwires p)%N eqn:E.
    + apply N.ltb_lt in E. rewrite N.min_l by lia. now apply N.ltb_lt.
    + apply N.ltb_ge in E. rewrite N.min_r by lia. apply N.ltb_irrefl.
  - intros E. apply N.ltb_lt in E. apply N.min_l. lia.
  - intros E. apply N.ltb_ge in E. apply N.min_r. lia.
  - intros ->. reflexivity.
  - intros ->. reflexivity.
Qed.

Lemma ClosestWireID_exists_iff_witness :
  Wire (PlaneGeo.ClosestWireID (Sample.straightPlane 0) 1) = 1%N /\
  Wire (PlaneGeo.ClosestWireID (Sample.straightPlane 0) 7) = 3%N.
Proof.
  split.
  - apply (ClosestWireID_exists_iff (Sample.straightPlane 0) 1 (WireID_of 0 0 0 1)).
    reflexivity.
  - apply (proj1 (proj2 (proj2
      (ClosestWireID_exists_iff (Sample.straightPlane 0) 7 (WireID_of 0 0 0 7))))).
    reflexivity.
Defined.

Lemma uint_sub_one (n : N) :
  (0 < n)%N -> (n <= UINT_MAX)%N -> uint_sub n 1 = (n - 1)%N.
Proof.
  intros H0 H1. unfold uint_sub, UINT_MAX in *.
  replace (n + (4294967295 + 1) - 1)%N with ((n - 1) + 1 * 4294967296)%N by lia.
  rewrite N.Div0.mod_add. apply N.mod_small. lia.
Qed.

(** X17. On a plane without wires [FirstWire()], [MiddleWire()] and
    [LastWire()] all throw "WireOutOfRange" (for [LastWire()] the wire
    number [Nwires() - 1] wraps around to the largest unsigned value).  On a
    plane with wires they return the wires number 0, [Nwires()/2] and
    [Nwires()-1]. *)
Theorem First_Middle_Last_Wire (p : PlaneGeo.t) :
  (PlaneGeo.fWire p = [] ->
   FirstWire p = Throw (cet_exception "WireOutOfRange") /\
   MiddleWire p = Throw (cet_exception "WireOutOfRange") /\
   LastWire p = Throw (cet_exception "WireOutOfRange")) /\
  (PlaneGeo.fWire p <> [] -> (PlaneGeo.Nwires p <= UINT_MAX)%N ->
   exists first middle last : WireGeo,
     FirstWire p = Ok first /\ MiddleWire p = Ok middle /\ LastWire p = Ok last /\
     nth_error (PlaneGeo.fWire p) 0 = Some first /\
     nth_error (PlaneGeo.fWire p) (List.length (PlaneGeo.fWire p) / 2) = Some middle /\
     nth_error (PlaneGeo.fWire p) (List.length (PlaneGeo.fWire p) - 1) = Some last).
Proof.
  unfold FirstWire, MiddleWire, LastWire, PlaneGeo.Wire, PlaneGeo.WirePtr,
    PlaneGeo.HasWire, PlaneGeo.Nwires.
  split.
  - intros ->. repeat split; reflexivity.
  - intros Hne Hmax.
    set (wires := PlaneGeo.fWire p) in *.
    assert (Hlen : (0 < List.length wires)%nat)
      by (destruct wires; [congruence | cbn; lia]).
    rewrite uint_sub_one by lia.
    assert (L0 : (0 <? N.of_nat (List.length wires))%N = true) by (apply N.ltb_lt; lia).
    assert (L1 : (N.of_nat (List.length wires) / 2 <? N.of_nat (List.length wires))%N = true).
    { apply N.ltb_lt. apply N.Div0.div_lt_upper_bound. lia. }
    assert (L2 : (N.of_nat (List.length wires) - 1 <? N.of_nat (List.length wires))%N = true)
      by (apply N.ltb_lt; lia).
    rewrite L0, L1, L2.
    assert (T1 : N.to_nat (N.of_nat (List.length wires) / 2) = (List.length wires / 2)%nat).
    { rewrite N2Nat.inj_div, Nat2N.id. reflexivity. }
    assert (T2 : N.to_nat (N.of_nat (List.length wires) - 1) = (List.length wires - 1)%nat)
      by lia.
    rewrite T1, T2. change (N.to_nat 0) with 0%nat.
    destruct (nth_error wires 0) as [first|] eqn:E0;
      [|apply nth_error_None in E0; lia].
    destruct (nth_error wires (List.length wires / 2)) as [middle|] eqn:E1.
    2:{ apply nth_error_None in E1.
        pose proof (Nat.Div0.div_lt_upper_bound (List.length wires) 2 (List.length wires)).
        lia. }
    destruct (nth_error wires (List.length wires - 1)) as [last|] eqn:E2;
      [|apply nth_error_None in E2; lia].
    exists first, middle, last. now repeat split.
Qed.

Lemma First_Middle_Last_Wire_witness :
  exists first middle last : WireGeo,
    FirstWire (Sample.straightPlane 0) = Ok first /\
    MiddleWire (Sample.straightPlane 0) = Ok middle /\
    LastWire (Sample.straightPlane 0) = Ok last /\
    nth_error (PlaneGeo.fWire (Sample.straightPlane 0)) 0 = Some first /\
    nth_error (PlaneGeo.fWire (Sample.straightPlane 0)) (3 / 2) = Some middle /\
    nth_error (PlaneGeo.fWire (Sample.straightPlane 0)) (3 - 1) = Some last.
Proof.
  apply (First_Middle_Last_Wire (Sample.straightPlane 0)).
  - discriminate.
  - vm_compute. discriminate.
Defined.
End PlaneWireFacts.

(** ** Plane coordinates, continued *)

Section MorePlaneFacts.
Import PlaneGeoInline.
Local Open Scope R_scope.

(** Removing from a point its normal component, on an orthonormal frame:
    the normal component becomes 0 and the secondary component stays. *)
Lemma Decomposer_drop_normal (f : Decomposer.t) (P : Point_t) :
  Decomposer.orthonormal f ->
  let Q := vsub P (vscale (Decomposer.PointNormalComponent f P) (Decomposer.NormalDir f)) in
  Decomposer.PointNormalComponent f Q = 0 /\
  Decomposer.PointSecondaryComponent f Q = Decomposer.PointSecondaryComponent f P.
Proof.
  destruct f as [[rx ry rz] [ax ay az] [bx by_ bz] [nx ny nz]].
  destruct P as [px py pz].
  unfold Decomposer.orthonormal, dot, cross. cbn.
  intros (HA & HB & HAB & HN). injection HN as -> -> ->.
  unfold Decomposer.PointNormalComponent, Decomposer.VectorNormalComponent,
    Decomposer.PointSecondaryComponent, Decomposer.VectorSecondaryComponent,
    Decomposer.ToVector, vsub, vscale, dot; cbn.
  split; [nsatz | ring].
Qed.

(** X18. When the cached normal of the plane is the normal of its
    orthonormal wire frame, [DriftPoint(position)] lands on the wire plane
    (its [DistanceFromPlane] is 0), keeps the plane and wire coordinates of
    the point, and drifting a second time changes nothing. *)
Theorem DriftPoint_reaches_plane (p : PlaneGeo.t) (position : Point_t) :
  Decomposer.orthonormal (PlaneGeo.fDecompWire p) ->
  PlaneGeo.fNormal p = Decomposer.NormalDir (PlaneGeo.fDecompWire p) ->
  PlaneGeo.DistanceFromPlane p (DriftPoint p position) = 0 /\
  PlaneGeo.PlaneCoordinate p (DriftPoint p position) = PlaneGeo.PlaneCoordinate p position /\
  PlaneGeo.WireCoordinate p (DriftPoint p position) = PlaneGeo.WireCoordinate p position /\
  DriftPoint p (DriftPoint p position) = DriftPoint p position.
Proof.
  intros Ho Hn.
  destruct (Decomposer_drop_normal (PlaneGeo.fDecompWire p) position Ho) as [D C].
  assert (D' : PlaneGeo.DistanceFromPlane p (DriftPoint p position) = 0).
  { unfold DriftPoint, DriftPoint_by, PlaneGeo.DistanceFromPlane. rewrite Hn. exact D. }
  assert (C' : PlaneGeo.PlaneCoordinate p (DriftPoint p position)
               = PlaneGeo.PlaneCoordinate p position).
  { unfold DriftPoint, DriftPoint_by, PlaneGeo.DistanceFromPlane, PlaneGeo.PlaneCoordinate.
    rewrite Hn. exact C. }
  split; [exact D'|]. split; [exact C'|]. split.
  - unfold PlaneGeo.WireCoordinate. now rewrite C'.
  - unfold DriftPoint at 1. rewrite D'.
    unfold DriftPoint_by, vsub, vscale.
    destruct (DriftPoint p position) as [qx qy qz]. cbn [getX getY getZ].
    f_equal; ring.
Qed.

Lemma DriftPoint_reaches_plane_witness :
  PlaneGeo.DistanceFromPlane (Sample.straightPlane 0)
    (DriftPoint (Sample.straightPlane 0) (mkXYZ 3 5 7)) = 0.
Proof.
  apply (DriftPoint_reaches_plane (Sample.straightPlane 0) (mkXYZ 3 5 7)).
  - exact SampleFacts.wireFrame_orthonormal.
  - reflexivity.
Defined.

(** X19. On a constructed plane, the coordinate of the center of wire [j]
    counted from wire [i] ([PlaneCoordinateFrom]) is [(j - i)] times the
    pitch. *)
Theorem PlaneCoordinateFrom_between_wires
        (p : PlaneGeo.t) (i j : nat) (wi wj : WireGeo) :
  PlaneGeo.constructed p ->
  nth_error (PlaneGeo.fWire p) i = Some wi ->
  nth_error (PlaneGeo.fWire p) j = Some wj ->
  PlaneGeo.PlaneCoordinateFrom p (GetCenter wj) wi
  = (INR j - INR i) * PlaneGeo.WirePitch p.
Proof.
  intros (Hw & _ & _ & Hwires) Hi Hj.
  destruct (Hwires i wi Hi) as [li Hci].
  destruct (Hwires j wj Hj) as [lj Hcj].
  pose proof (Decomposer_secondary_of_offset (PlaneGeo.fDecompWire p)
                li (INR i * PlaneGeo.fWirePitch p) Hw) as Si.
  pose proof (Decomposer_secondary_of_offset (PlaneGeo.fDecompWire p)
                lj (INR j * PlaneGeo.fWirePitch p) Hw) as Sj.
  rewrite <- Hci in Si. rewrite <- Hcj in Sj.
  unfold PlaneGeo.PlaneCoordinateFrom, PlaneGeo.WirePitch.
  replace ((INR j - INR i) * PlaneGeo.fWirePitch p)
    with (INR j * PlaneGeo.fWirePitch p - INR i * PlaneGeo.fWirePitch p) by ring.
  rewrite <- Si, <- Sj.
  unfold Decomposer.PointSecondaryComponent, Decomposer.VectorSecondaryComponent,
    Decomposer.ToVector, vsub, dot. cbn [getX getY getZ]. ring.
Qed.

Lemma PlaneCoordinateFrom_between_wires_witness :
  PlaneGeo.PlaneCoordinateFrom (Sample.straightPlane 0)
    (GetCenter (Sample.wireAt 4)) (Sample.wireAt 2)
  = (INR 2 - INR 1) * PlaneGeo.WirePitch (Sample.straightPlane 0).
Proof.
  apply (PlaneCoordinateFrom_between_wires (Sample.straightPlane 0) 1 2
           (Sample.wireAt 2) (Sample.wireAt 4)
           (SampleFacts.straightPlane_constructed 0)); reflexivity.
Defined.
End MorePlaneFacts.

(** ** Optical detector numbering, continued *)

Section MoreOpDetFacts.
Import OpDetNumbering.
Local Open Scope N_scope.

Lemma set_nth_length (i : nat) (x : N) (v : list N) :
  List.length (set_nth i x v) = List.length v.
Proof.
  revert i. induction v as [|h t IH]; intros [|i]; cbn; try reflexivity.
  now rewrite IH.
Qed.

Lemma nth_set_nth_eq (i : nat) (x : N) (v : list N) :
  (i < List.length v)%nat -> nth i (set_nth i x v) 0 = x.
Proof.
  revert i. induction v as [|h t IH]; intros [|i] H; cbn in *; try lia.
  apply IH. lia.
Qed.

Lemma nth_set_nth_neq (k i : nat) (x : N) (v : list N) :
  k <> i -> nth k (set_nth i x v) 0 = nth k v 0.
Proof.
  revert k i. induction v as [|h t IH]; intros [|k] [|i] H; cbn; try reflexivity.
  - congruence.
  - apply IH. congruence.
Qed.

Lemma vec_at_in_range (v : list N) (i : nat) :
  (i < List.length v)%nat -> vec_at v (N.of_nat i) = Ok (nth i v 0).
Proof.
  intros H. unfold vec_at. rewrite Nat2N.id.
  destruct (nth_error v i) eqn:E.
  - now rewrite (nth_error_nth v i 0 E).
  - apply nth_error_None in E. lia.
Qed.

Lemma Cryostat_at_nth (g : GeometryCore) (k : nat) (cryo : CryostatGeo) :
  nth_error (Cryostats g) k = Some cryo ->
  Cryostat_at g (CryostatID_of (N.of_nat k)) = Ok cryo.
Proof.
  intros H. unfold Cryostat_at, CryostatPtr, CryostatID_of. cbn [Cryostat].
  now rewrite Nat2N.id, H.
Qed.

(** The filling loop writes the sequence [tbl] when each step adds the
    count that leads from one entry of [tbl] to the next. *)
Lemma fillLowestID_writes (g : GeometryCore) (which : N -> CryostatID) (tbl : nat -> N) :
  forall (n i : nat) (v : list N),
    (forall k, (i <= k < i + n)%nat ->
       exists cryo, Cryostat_at g (which (N.of_nat k)) = Ok cryo /\
                    uint_add (tbl k) (NOpDet cryo) = tbl (S k)) ->
    (i + n < List.length v)%nat ->
    (forall k, (k <= i)%nat -> nth k v 0 = tbl k) ->
    exists v', fillLowestID g which n (N.of_nat i) v = (Ok tt, v') /\
               List.length v' = List.length v /\
               forall k, (k <= i + n)%nat -> nth k v' 0 = tbl k.
Proof.
  induction n as [|n IH]; intros i v Hc Hlen Hinv.
  - exists v. repeat split. intros k Hk. apply Hinv. lia.
  - cbn [fillLowestID].
    rewrite vec_at_in_range by lia.
    destruct (Hc i) as (cryo & Ec & Estep); [lia|]. rewrite Ec.
    unfold vec_set_at.
    assert (L : (N.of_nat i + 1 <? N.of_nat (List.length v)) = true)
      by (apply N.ltb_lt; lia).
    rewrite L.
    replace (N.of_nat i + 1) with (N.of_nat (S i)) by lia.
    rewrite Nat2N.id.
    destruct (IH (S i) (set_nth (S i) (uint_add (nth i v 0) (NOpDet cryo)) v))
      as (v' & Ev & Lv & Iv).
    + intros k Hk. apply Hc. lia.
    + rewrite set_nth_length. lia.
    + intros k Hk. destruct (Nat.eq_dec k (S i)) as [-> | Hne].
      * rewrite nth_set_nth_eq by lia. rewrite Hinv by lia. exact Estep.
      * rewrite nth_set_nth_neq by assumption. apply Hinv. lia.
    + exists v'. split; [exact Ev|]. split.
      * now rewrite Lv, set_nth_length.
      * intros k Hk. apply Iv. lia.
Qed.

Lemma resize_empty (n : N) : resize n [] = repeat 0 (N.to_nat n).
Proof.
  unfold resize. rewrite firstn_nil. cbn [List.length app].
  now rewrite Nat.sub_0_r.
Qed.


(** The first call of either function, when the loop does not throw. *)
Lemma load_initial (g : GeometryCore) (which : N -> CryostatID) (tbl : nat -> N) :
  Ncryostats g < UINT_MAX ->
  tbl 0%nat = 0 ->
  (forall k, (k < List.length (Cryostats g))%nat ->
     exists cryo, Cryostat_at g (which (N.of_nat k)) = Ok cryo /\
                  uint_add (tbl k) (NOpDet cryo) = tbl (S k)) ->
  exists v', load g which initial = (Ok tt, mkStatics true v' (Ncryostats g)) /\
             List.length v' = S (List.length (Cryostats g)) /\
             forall k, (k <= List.length (Cryostats g))%nat -> nth k v' 0 = tbl k.
Proof.
  intros Hmax H0 Hstep. unfold load, initial. cbn [Loaded LowestID].
  unfold Ncryostats in *.
  set (n := List.length (Cryostats g)) in *.
  assert (E1 : uint_add (N.of_nat n) 1 = N.of_nat (S n)).
  { unfold uint_add, UINT_MAX in *. rewrite N.mod_small by lia. lia. }
  rewrite E1, resize_empty, Nat2N.id. cbn [repeat].
  unfold vec_set_at. cbn [List.length]. 
  assert (E2 : (0 <? N.of_nat (S (List.length (repeat 0 n)))) = true)
    by (apply N.ltb_lt; lia).
  rewrite E2. cbn [set_nth N.to_nat].
  destruct (fillLowestID_writes g which tbl n 0 (0 :: repeat 0 n)) as (v' & Ev & Lv & Iv).
  - intros k Hk. apply Hstep. lia.
  - cbn [List.length]. rewrite repeat_length. lia.
  - intros k Hk. replace k with 0%nat by lia. now rewrite H0.
  - rewrite Nat2N.id. change (N.of_nat 0) with 0 in Ev. rewrite Ev.
    exists v'. split; [reflexivity|]. split.
    + rewrite Lv. cbn [List.length]. now rewrite repeat_length.
    + intros k Hk. apply Iv. lia.
Qed.

Lemma firstn_snoc {A : Type} (l : list A) (k : nat) (x : A) :
  nth_error l k = Some x -> firstn (S k) l = firstn k l ++ [x].
Proof.
  revert k. induction l as [|h t IH]; intros [|k] H; cbn in *; try discriminate.
  - now injection H as ->.
  - f_equal. now apply IH.
Qed.

Lemma below_succ (g : GeometryCore) (k : nat) (cryo : CryostatGeo) :
  nth_error (Cryostats g) k = Some cryo ->
  below g (S k) = below g k + NOpDet cryo.
Proof.
  intros H. unfold below, expectedOpDet. rewrite !Nat2N.id, !N.add_0_r.
  rewrite (firstn_snoc _ _ _ H), fold_left_app. reflexivity.
Qed.

Lemma below_step_le (g : GeometryCore) (k : nat) : below g k <= below g (S k).
Proof.
  destruct (nth_error (Cryostats g) k) as [cryo|] eqn:E.
  - rewrite (below_succ g k cryo E). lia.
  - apply nth_error_None in E. unfold below, expectedOpDet.
    rewrite !Nat2N.id, !firstn_all2 by lia. lia.
Qed.

Lemma below_mono (g : GeometryCore) (k k' : nat) :
  (k <= k')%nat -> below g k <= below g k'.
Proof.
  induction 1 as [|k' _ IH]; [lia|].
  pose proof (below_step_le g k'). lia.
Qed.

(** The table of [OpDetGeoFromOpDet] after its first call. *)
Lemma load_prefix_sums (g : GeometryCore) :
  Ncryostats g < UINT_MAX ->
  below g (List.length (Cryostats g)) <= UINT_MAX ->
  exists v', load g CryostatID_of initial = (Ok tt, mkStatics true v' (Ncryostats g)) /\
             forall k, (k <= List.length (Cryostats g))%nat -> nth k v' 0 = below g k.
Proof.
  intros Hn Htot.
  destruct (load_initial g CryostatID_of (below g)) as (v' & Ev & _ & Iv);
    [assumption | reflexivity | | exists v'; now split].
  intros k Hk.
  destruct (nth_error (Cryostats g) k) as [cryo|] eqn:E;
    [|apply nth_error_None in E; lia].
  exists cryo. split; [now apply Cryostat_at_nth|].
  rewrite (below_succ g k cryo E).
  pose proof (below_mono g (S k) (List.length (Cryostats g))) as Hm.
  rewrite (below_succ g k cryo E) in Hm.
  unfold uint_add, UINT_MAX in *. apply N.mod_small. lia.
Qed.

Lemma findOpDet_hit (g : GeometryCore) (table : list N) (c : nat) (cryo : CryostatGeo)
      (o : N) :
  nth_error (Cryostats g) c = Some cryo ->
  o < NOpDet cryo ->
  (forall k, (k <= List.length (Cryostats g))%nat -> nth k table 0 = below g k) ->
  forall (n i : nat),
    (i <= c)%nat -> (c < i + n)%nat ->
    findOpDet g table (below g c + o) n (N.of_nat i) = OpDet cryo o.
Proof.
  intros Hc Ho Htab.
  assert (Hlen : (c < List.length (Cryostats g))%nat)
    by (apply nth_error_Some; congruence).
  induction n as [|n IH]; intros i Hi Hn; [lia|].
  cbn [findOpDet].
  replace (N.of_nat i + 1) with (N.of_nat (S i)) by lia.
  rewrite !Nat2N.id, !Htab by lia.
  destruct (Nat.eq_dec i c) as [-> | Hne].
  - rewrite (below_succ g c cryo Hc).
    assert (E1 : (below g c <=? below g c + o) = true) by (apply N.leb_le; lia).
    assert (E2 : (below g c + o <? below g c + NOpDet cryo) = true)
      by (apply N.ltb_lt; lia).
    rewrite E1, E2. cbn [andb].
    rewrite (Cryostat_at_nth g c cryo Hc). cbn [bind].
    f_equal. lia.
  - pose proof (below_mono g (S i) c) as Hm.
    assert (E2 : (below g c + o <? below g (S i)) = false)
      by (apply N.ltb_ge; lia).
    rewrite E2, andb_false_r. apply IH; lia.
Qed.

Lemma findOpDet_miss (g : GeometryCore) (table : list N) (x : N) :
  (forall k, (k <= List.length (Cryostats g))%nat -> nth k table 0 = below g k) ->
  below g (List.length (Cryostats g)) <= x ->
  forall (n i : nat),
    (i + n <= List.length (Cryostats g))%nat ->
    findOpDet g table x n (N.of_nat i) = Throw (cet_exception "OpID To OpDetCryo error").
Proof.
  intros Htab Hx.
  induction n as [|n IH]; intros i Hn; [reflexivity|].
  cbn [findOpDet].
  replace (N.of_nat i + 1) with (N.of_nat (S i)) by lia.
  rewrite !Nat2N.id, !Htab by lia.
  pose proof (below_mono g (S i) (List.length (Cryostats g))) as Hm.
  assert (E2 : (x <? below g (S i)) = false) by (apply N.ltb_ge; lia).
  rewrite E2, andb_false_r. apply IH. lia.
Qed.

(** X20. With the statics in their initial state, and a detector whose
    optical detectors number at most [UINT_MAX] in total:
    [OpDetGeoFromOpDet] maps the number "optical detectors in the cryostats
    below [c], plus [o]" to the optical detector [o] of cryostat [c], for
    every valid [o] and [c]; and it throws "OpID To OpDetCryo error" on
    every number at or past the total. *)
Theorem OpDetGeoFromOpDet_correct (g : GeometryCore) :
  Ncryostats g < UINT_MAX ->
  expectedOpDet g 0 (Ncryostats g) <= UINT_MAX ->
  (forall (c o : N) (cryo : CryostatGeo) (od : OpDetGeo),
     nth_error (Cryostats g) (N.to_nat c) = Some cryo ->
     nth_error (OpDets cryo) (N.to_nat o) = Some od ->
     fst (OpDetGeoFromOpDet g (expectedOpDet g o c) initial) = Ok od) /\
  (forall x : N,
     expectedOpDet g 0 (Ncryostats g) <= x ->
     fst (OpDetGeoFromOpDet g x initial)
     = Throw (cet_exception "OpID To OpDetCryo error")).
Proof.
  intros Hn Htot.
  assert (Htot' : below g (List.length (Cryostats g)) <= UINT_MAX) by exact Htot.
  destruct (load_prefix_sums g Hn Htot') as (v' & Ev & Iv).
  split.
  - intros c o cryo od Hc Ho.
    unfold OpDetGeoFromOpDet. rewrite Ev. cbn [fst LowestID NCryo].
    unfold Ncryostats. rewrite Nat2N.id.
    assert (Hlen : (N.to_nat c < List.length (Cryostats g))%nat)
      by (apply nth_error_Some; congruence).
    assert (Ho' : o < NOpDet cryo).
    { unfold NOpDet.
      assert (N.to_nat o < List.length (OpDets cryo))%nat
        by (apply nth_error_Some; congruence). lia. }
    assert (Ex : expectedOpDet g o c = below g (N.to_nat c) + o).
    { unfold below, expectedOpDet. rewrite N2Nat.id. lia. }
    rewrite Ex.
    change 0 with (N.of_nat 0).
    rewrite (findOpDet_hit g v' (N.to_nat c) cryo o Hc Ho' Iv) by lia.
    unfold OpDet. now rewrite Ho.
  - intros x Hx.
    unfold OpDetGeoFromOpDet. rewrite Ev. cbn [fst LowestID NCryo].
    unfold Ncryostats. rewrite Nat2N.id.
    change 0 with (N.of_nat 0).
    apply findOpDet_miss; try assumption. lia.
Qed.

Lemma OpDetGeoFromOpDet_correct_witness :
  fst (OpDetGeoFromOpDet Sample.detector (expectedOpDet Sample.detector 1 1) initial)
  = Ok Sample.opdetC.
Proof.
  apply (proj1 (OpDetGeoFromOpDet_correct Sample.detector
                  ltac:(vm_compute; reflexivity)
                  ltac:(vm_compute; discriminate))
               1 1 Sample.cryo1 Sample.opdetC);
    reflexivity.
Defined.

(** X21. The first call of the process to [OpDetFromCryo(o, c)], on valid
    [o] and [c], returns [c] times the number of optical detectors of
    cryostat [c] itself, plus [o] (in 32-bit arithmetic): every step of the
    table-filling loop adds the count of cryostat [c]. *)
Theorem OpDetFromCryo_first_call (g : GeometryCore) (o c : N) (cryo : CryostatGeo) :
  Ncryostats g < UINT_MAX ->
  nth_error (Cryostats g) (N.to_nat c) = Some cryo ->
  o < NOpDet cryo ->
  fst (OpDetFromCryo g o c initial) = Ok ((c * NOpDet cryo + o) mod (UINT_MAX + 1)).
Proof.
  intros Hn Hc Ho.
  assert (Ecryo : Cryostat_at g (CryostatID_of c) = Ok cryo).
  { unfold Cryostat_at, CryostatPtr, CryostatID_of. cbn [Cryostat]. now rewrite Hc. }
  assert (Hlen : (N.to_nat c < List.length (Cryostats g))%nat)
    by (apply nth_error_Some; congruence).
  destruct (load_initial g (fun _ => CryostatID_of c)
              (fun k => (N.of_nat k * NOpDet cryo) mod (UINT_MAX + 1)))
    as (v' & Ev & Lv & Iv).
  - assumption.
  - reflexivity.
  - intros k Hk. exists cryo. split; [exact Ecryo|].
    unfold uint_add. rewrite N.Div0.add_mod_idemp_l. f_equal. lia.
  - unfold OpDetFromCryo. rewrite Ev. cbn [NCryo LowestID].
    rewrite Ecryo.
    assert (E1 : (c <? Ncryostats g) = true)
      by (apply N.ltb_lt; unfold Ncryostats; lia).
    assert (E2 : (o <? NOpDet cryo) = true) by (now apply N.ltb_lt).
    rewrite E1, E2. cbn [andb fst].
    rewrite <- (N2Nat.id c) at 1.
    rewrite vec_at_in_range by lia. cbn [bind].
    rewrite Iv by lia. rewrite N2Nat.id.
    unfold uint_add. now rewrite N.Div0.add_mod_idemp_l.
Qed.

Lemma OpDetFromCryo_first_call_witness :
  fst (OpDetFromCryo Sample.detector 0 1 initial)
  = Ok ((1 * NOpDet Sample.cryo1 + 0) mod (UINT_MAX + 1)).
Proof.
  apply (OpDetFromCryo_first_call Sample.detector 0 1 Sample.cryo1); reflexivity.
Defined.


End MoreOpDetFacts.

(** ** Navigation of the tree of ROOT nodes *)

(** Induction on a tree of nodes, with the property assumed for all the
    daughters. *)
Lemma TGeoNode_induction (P : TGeoNode -> Prop) :
  (forall name volumeName daughters,
      Forall P daughters -> P (mkTGeoNode name volumeName daughters)) ->
  forall n : TGeoNode, P n.
Proof.
  intros step. fix IH 1. intros [name volumeName daughters].
  apply step. induction daughters as [|d t IHt]; constructor.
  - apply IH.
  - exact IHt.
Qed.

Section IteratorFacts.
Import ROOTGeoNodeForwardIterator.

Lemma subtreeStates_unfold (name volumeName : string) (daughters : list TGeoNode)
      (sibling : nat) (above : path_t) :
  subtreeStates (mkTGeoNode name volumeName daughters) sibling above =
  layerStates ((mkTGeoNode name volumeName daughters, sibling) :: above) 0 daughters
  ++ [(mkTGeoNode name volumeName daughters, sibling) :: above].
Proof.
  cbn [subtreeStates]. f_equal.
  generalize ((mkTGeoNode name volumeName daughters, sibling) :: above). intros me.
  generalize 0%nat. induction daughters as [|d t IH]; intros i; cbn [layerStates].
  - reflexivity.
  - now rewrite IH.
Qed.

Lemma option_map_app {A : Type} (l1 l2 : list A) (o : option (list A)) :
  option_map (app l1) (option_map (app l2) o) = option_map (app (l1 ++ l2)) o.
Proof. destruct o; cbn; [now rewrite app_assoc | reflexivity]. Qed.

Lemma skipn_cons_inv {A : Type} (l : list A) (j : nat) (d : A) (t : list A) :
  skipn j l = d :: t ->
  nth_error l j = Some d /\ skipn (S j) l = t /\ List.length l = (j + S (List.length t))%nat.
Proof.
  revert j. induction l as [|h l IH]; intros [|j] H; cbn in *; try discriminate.
  - injection H as -> ->. now repeat split.
  - destruct (IH j H) as (H1 & H2 & H3). repeat split; try assumption. lia.
Qed.

Lemma Forall_skipn {A : Type} (Q : A -> Prop) (l : list A) (j : nat) :
  Forall Q l -> Forall Q (skipn j l).
Proof.
  intros H. revert j. induction H as [|h l Hh Hl IH]; intros [|j]; cbn; auto.
Qed.

Lemma statesFrom_step (fuel : nat) (x : NodeInfo_t) (r : path_t) :
  statesFrom (S fuel) (x :: r) = option_map (cons (x :: r)) (statesFrom fuel (next (x :: r))).
Proof. reflexivity. Qed.

Lemma next_sibling (d n : TGeoNode) (j sibling : nat) (above : path_t) :
  next ((d, j) :: (n, sibling) :: above) =
  if (S j <? List.length (GetDaughters n))%nat
  then match nth_error (GetDaughters n) (S j) with
       | Some self => descend self ((self, S j) :: (n, sibling) :: above)
       | None => (n, sibling) :: above
       end
  else (n, sibling) :: above.
Proof. reflexivity. Qed.

(** The iterator, started at the deepest first descendant of [n], goes
    through [subtreeStates n], ends on [n] itself, and then moves on. *)
Lemma statesFrom_subtree (n : TGeoNode) :
  forall (sibling : nat) (above : path_t) (fuel : nat),
    statesFrom (nodeCount n + fuel) (descend n ((n, sibling) :: above)) =
    option_map (app (subtreeStates n sibling above))
               (statesFrom fuel (next ((n, sibling) :: above))).
Proof.
  induction n as [name volumeName daughters IH] using TGeoNode_induction.
  intros sibling above fuel.
  rewrite subtreeStates_unfold.
  remember (mkTGeoNode name volumeName daughters) as n eqn:En.
  assert (Ed : GetDaughters n = daughters) by (now rewrite En).
  remember ((n, sibling) :: above) as me eqn:Eme.
  assert (Estep : forall f, statesFrom (S f) me
                            = option_map (cons me) (statesFrom f (next me)))
    by (intros f; rewrite Eme; apply statesFrom_step).
  assert (Layer : forall (l : list TGeoNode) (j : nat) (d : TGeoNode) (t : list TGeoNode)
                         (fuel' : nat),
             l = d :: t -> skipn j daughters = l ->
             statesFrom (list_sum (map nodeCount l) + S fuel')
                        (descend d ((d, j) :: me)) =
             option_map (app (layerStates me j l ++ [me]))
                        (statesFrom fuel' (next me))).
  { induction l as [|d0 t0 IHl]; intros j d t fuel' El Hs; [discriminate|].
    injection El as -> ->.
    destruct (skipn_cons_inv _ _ _ _ Hs) as (Hn & Hs' & Hlen).
    assert (IHd : forall sibling above fuel,
               statesFrom (nodeCount d + fuel) (descend d ((d, sibling) :: above)) =
               option_map (app (subtreeStates d sibling above))
                          (statesFrom fuel (next ((d, sibling) :: above)))).
    { pose proof (Forall_skipn _ daughters j IH) as F. rewrite Hs in F.
      now inversion F. }
    assert (Esum : (list_sum (map nodeCount (d :: t)) + S fuel'
                    = nodeCount d + (list_sum (map nodeCount t) + S fuel'))%nat)
      by (unfold list_sum; cbn [map fold_right]; lia).
    rewrite Esum. cbn [layerStates].
    rewrite IHd.
    assert (Enext : next ((d, j) :: me) =
                    match t with
                    | [] => me
                    | d' :: _ => descend d' ((d', S j) :: me)
                    end).
    { rewrite Eme, next_sibling, Ed, <- Eme.
      destruct t as [|d' t'].
      - assert (E : (S j <? List.length daughters)%nat = false)
          by (apply Nat.ltb_ge; cbn in Hlen; lia).
        now rewrite E.
      - assert (E : (S j <? List.length daughters)%nat = true)
          by (apply Nat.ltb_lt; cbn in Hlen; lia).
        rewrite E.
        destruct (skipn_cons_inv _ _ _ _ Hs') as (Hn' & _ & _).
        now rewrite Hn'. }
    rewrite Enext. destruct t as [|d' t'].
    - change (list_sum (map nodeCount []) + S fuel')%nat with (S fuel').
      rewrite Estep. cbn [layerStates]. rewrite app_nil_r.
      destruct (statesFrom fuel' (next me)); cbn [option_map]; [|reflexivity].
      now rewrite <- app_assoc.
    - rewrite (IHl (S j) d' t' fuel' eq_refl Hs').
      rewrite option_map_app. now rewrite <- app_assoc. }
  destruct daughters as [|d0 t0].
  - assert (E1 : descend n me = me) by (rewrite En; reflexivity).
    assert (E2 : nodeCount n = 1%nat) by (rewrite En; reflexivity).
    rewrite E1, E2. change (1 + fuel)%nat with (S fuel). rewrite Estep.
    reflexivity.
  - assert (E1 : descend n me = descend d0 ((d0, 0%nat) :: me))
      by (rewrite En; reflexivity).
    assert (E2 : nodeCount n = S (list_sum (map nodeCount (d0 :: t0))))
      by (rewrite En; reflexivity).
    rewrite E1, E2.
    replace (S (list_sum (map nodeCount (d0 :: t0))) + fuel)%nat
      with (list_sum (map nodeCount (d0 :: t0)) + S fuel)%nat by lia.
    now apply (Layer (d0 :: t0) 0%nat d0 t0 fuel).
Qed.

Lemma currentNodes_app (a b : list path_t) :
  currentNodes (a ++ b) = currentNodes a ++ currentNodes b.
Proof. unfold currentNodes. apply flat_map_app. Qed.

Lemma currentNodes_subtree (n : TGeoNode) :
  forall (sibling : nat) (above : path_t),
    currentNodes (subtreeStates n sibling above) = postorder n.
Proof.
  induction n as [name volumeName daughters IH] using TGeoNode_induction.
  intros sibling above. rewrite subtreeStates_unfold, currentNodes_app.
  cbn [postorder]. f_equal.
  generalize ((mkTGeoNode name volumeName daughters, sibling) :: above). intros me.
  generalize 0%nat.
  induction IH as [|d t Hd Ht IHt]; intros i; cbn [layerStates flat_map].
  - reflexivity.
  - now rewrite currentNodes_app, Hd, IHt.
Qed.

Lemma get_path_cons (n : TGeoNode) (sibling : nat) (above : path_t) :
  get_path ((n, sibling) :: above) = get_path above ++ [n].
Proof. reflexivity. Qed.

Lemma get_path_subtree (n : TGeoNode) :
  forall (sibling : nat) (above : path_t),
    map get_path (subtreeStates n sibling above) = postorderPaths (get_path above) n.
Proof.
  induction n as [name volumeName daughters IH] using TGeoNode_induction.
  intros sibling above. rewrite subtreeStates_unfold, map_app.
  cbn [postorderPaths map]. rewrite get_path_cons. f_equal.
  rewrite <- (get_path_cons (mkTGeoNode name volumeName daughters) sibling above).
  generalize ((mkTGeoNode name volumeName daughters, sibling) :: above). intros me.
  generalize 0%nat.
  induction IH as [|d t Hd Ht IHt]; intros i; cbn [layerStates flat_map map].
  - reflexivity.
  - now rewrite map_app, Hd, IHt.
Qed.

Lemma statesFrom_start (top : TGeoNode) (fuel : nat) :
  (nodeCount top <= fuel)%nat ->
  statesFrom fuel (start (Some top)) = Some (subtreeStates top 0 []).
Proof.
  intros H. replace fuel with (nodeCount top + (fuel - nodeCount top))%nat by lia.
  cbn [start reach_deepest_descendant]. rewrite statesFrom_subtree.
  cbn [next]. destruct (fuel - nodeCount top)%nat; cbn [statesFrom option_map];
    now rewrite app_nil_r.
Qed.

Lemma current_matches_path (vol_names : list string) (s : path_t) :
  match current s with
  | Some n => NodeNameMatcher vol_names n
  | None => false
  end = pathMatches vol_names (get_path s).
Proof.
  unfold pathMatches, lastNode, get_path. rewrite rev_involutive.
  destruct s as [|[n k] r]; reflexivity.
Qed.

Lemma FindAllVolumes_loop_states (vol_names : list string) :
  forall (fuel : nat) (s : path_t) (nodes : list TGeoNode),
    FindAllVolumes_loop vol_names fuel s nodes =
    option_map (fun sts => nodes ++ filter (NodeNameMatcher vol_names) (currentNodes sts))
               (statesFrom fuel s).
Proof.
  induction fuel as [|fuel IH]; intros [|[n k] r] nodes;
    cbn [FindAllVolumes_loop current statesFrom option_map currentNodes flat_map filter];
    try reflexivity; try (now rewrite app_nil_r).
  rewrite IH.
  match goal with
  | |- context [statesFrom fuel ?x] => destruct (statesFrom fuel x) as [sts|]
  end; cbn [option_map]; [|reflexivity].
  f_equal. cbn [currentNodes flat_map current app filter].
  fold (currentNodes sts).
  destruct (NodeNameMatcher vol_names n); [|reflexivity].
  now rewrite <- app_assoc.
Qed.

Lemma FindAllVolumePaths_loop_states (vol_names : list string) :
  forall (fuel : nat) (s : path_t) (paths : list (list TGeoNode)),
    FindAllVolumePaths_loop vol_names fuel s paths =
    option_map (fun sts => paths ++ filter (pathMatches vol_names) (map get_path sts))
               (statesFrom fuel s).
Proof.
  induction fuel as [|fuel IH]; intros [|[n k] r] paths;
    cbn [FindAllVolumePaths_loop current statesFrom option_map map filter];
    try reflexivity; try (now rewrite app_nil_r).
  rewrite IH.
  match goal with
  | |- context [statesFrom fuel ?x] => destruct (statesFrom fuel x) as [sts|]
  end; cbn [option_map]; [|reflexivity].
  f_equal. cbn [map filter].
  rewrite <- current_matches_path. cbn [current].
  destruct (NodeNameMatcher vol_names n); [|reflexivity].
  now rewrite <- app_assoc.
Qed.

Lemma FindAllVolumes_result (vol_names : list string) (top : TGeoNode) (fuel : nat) :
  (nodeCount top <= fuel)%nat ->
  FindAllVolumes vol_names fuel (Some top)
  = Some (filter (NodeNameMatcher vol_names) (postorder top)).
Proof.
  intros H.
  unfold FindAllVolumes. rewrite FindAllVolumes_loop_states, statesFrom_start by assumption.
  cbn [option_map app]. now rewrite currentNodes_subtree.
Qed.

Lemma lastNodes_filter (vol_names : list string) (l : list (list TGeoNode)) :
  flat_map (fun path => match lastNode path with Some x => [x] | None => [] end)
           (filter (pathMatches vol_names) l)
  = filter (NodeNameMatcher vol_names)
           (flat_map (fun path => match lastNode path with Some x => [x] | None => [] end) l).
Proof.
  induction l as [|p l IHl]; cbn [filter flat_map]; [reflexivity|].
  unfold pathMatches at 1.
  destruct (lastNode p) as [x|] eqn:El; cbn [app filter].
  - destruct (NodeNameMatcher vol_names x); cbn [flat_map app].
    + rewrite El. cbn [app]. now f_equal.
    + exact IHl.
  - exact IHl.
Qed.

(** X23. Given fuel for at least as many iterations as the tree has nodes,
    [FindAllVolumes] terminates and returns the nodes of the tree whose
    volume name is in [vol_names], each once, in post-order (every node
    after all the nodes below it, the top node last); without a top node it
    returns no node. *)
Theorem FindAllVolumes_postorder (vol_names : list string) (top : TGeoNode) (fuel : nat) :
  (nodeCount top <= fuel)%nat ->
  FindAllVolumes vol_names fuel (Some top)
  = Some (filter (NodeNameMatcher vol_names) (postorder top)) /\
  FindAllVolumes vol_names fuel None = Some [].
Proof.
  intros H. split.
  - now apply FindAllVolumes_result.
  - destruct fuel; reflexivity.
Qed.

Lemma postorderPaths_spec (n : TGeoNode) :
  forall above : list TGeoNode,
    Forall (fun path => exists below, path = above ++ n :: below /\
                                      downwardPath (n :: below))
           (postorderPaths above n) /\
    flat_map (fun path => match lastNode path with Some x => [x] | None => [] end)
             (postorderPaths above n) = postorder n.
Proof.
  induction n as [name volumeName daughters IH] using TGeoNode_induction.
  intros above. cbn [postorderPaths postorder].
  set (n := mkTGeoNode name volumeName daughters).
  assert (L : forall l, Forall (fun d => In d daughters) l -> 
              Forall (fun d => forall above : list TGeoNode,
                Forall (fun path => exists below, path = above ++ d :: below /\
                                                  downwardPath (d :: below))
                       (postorderPaths above d) /\
                flat_map (fun path => match lastNode path with Some x => [x] | None => [] end)
                         (postorderPaths above d) = postorder d) l ->
              Forall (fun path => exists below, path = above ++ n :: below /\
                                                downwardPath (n :: below))
                     (flat_map (postorderPaths (above ++ [n])) l) /\
              flat_map (fun path => match lastNode path with Some x => [x] | None => [] end)
                       (flat_map (postorderPaths (above ++ [n])) l)
              = flat_map postorder l).
  { induction l as [|d t IHl]; intros Hin Hl; cbn [flat_map].
    - split; [constructor | reflexivity].
    - inversion Hin as [|? ? Hd Ht]; subst. inversion Hl as [|? ? Pd Pt]; subst.
      destruct (IHl Ht Pt) as [F1 F2]. destruct (Pd (above ++ [n])) as [G1 G2].
      split.
      + apply Forall_app. split; [|exact F1].
        eapply Forall_impl; [|exact G1]. cbn beta.
        intros path (below & -> & Hdown). exists (d :: below). split.
        * now rewrite <- app_assoc.
        * cbn [downwardPath]. split; [exact Hd | exact Hdown].
      + now rewrite flat_map_app, G2, F2. }
  destruct (L daughters) as [F1 F2].
  - apply Forall_forall. auto.
  - exact IH.
  - split.
    + apply Forall_app. split; [exact F1|].
      constructor; [|constructor]. exists []. split; [reflexivity | exact I].
    + rewrite flat_map_app, F2. cbn [flat_map]. unfold lastNode.
      rewrite rev_app_distr. reflexivity.
Qed.

(** X24. Given fuel for at least as many iterations as the tree has nodes,
    [FindAllVolumePaths] terminates and returns, in post-order, the path of
    every node whose volume name is in [vol_names]: each returned path
    starts at the top node, goes from each node to one of its daughters, and
    ends at a matching node; the end nodes of the returned paths are the
    result of [FindAllVolumes]. *)
Theorem FindAllVolumePaths_postorder (vol_names : list string) (top : TGeoNode) (fuel : nat) :
  (nodeCount top <= fuel)%nat ->
  exists paths : list (list TGeoNode),
    FindAllVolumePaths vol_names fuel (Some top) = Some paths /\
    paths = filter (pathMatches vol_names) (postorderPaths [] top) /\
    Forall (fun path => hd_error path = Some top /\ downwardPath path /\
                        pathMatches vol_names path = true) paths /\
    Some (flat_map (fun path => match lastNode path with Some x => [x] | None => [] end)
                   paths)
    = FindAllVolumes vol_names fuel (Some top).
Proof.
  intros H. exists (filter (pathMatches vol_names) (postorderPaths [] top)).
  destruct (postorderPaths_spec top []) as [F1 F2].
  split; [|split; [reflexivity | split]].
  - unfold FindAllVolumePaths.
    rewrite FindAllVolumePaths_loop_states, statesFrom_start by assumption.
    cbn [option_map app]. now rewrite get_path_subtree.
  - apply Forall_forall. intros path Hp. apply filter_In in Hp as [Hp Hm].
    rewrite Forall_forall in F1. destruct (F1 path Hp) as (below & -> & Hdown).
    now repeat split.
  - rewrite (FindAllVolumes_result vol_names top fuel H). f_equal.
    now rewrite lastNodes_filter, F2.
Qed.

Lemma FindAllVolumes_postorder_witness :
  FindAllVolumes ["volCryostat"; "volWorld"]%string 4 (Some SampleTree.worldNode)
  = Some [SampleTree.cryostatNode; SampleTree.worldNode].
Proof.
  apply (FindAllVolumes_postorder ["volCryostat"; "volWorld"]%string
           SampleTree.worldNode 4).
  vm_compute. lia.
Defined.

Lemma FindAllVolumePaths_postorder_witness :
  exists paths : list (list TGeoNode),
    FindAllVolumePaths ["volCryostat"]%string 4 (Some SampleTree.worldNode) = Some paths /\
    paths = [[SampleTree.worldNode; SampleTree.enclosureNode; SampleTree.cryostatNode]].
Proof.
  destruct (FindAllVolumePaths_postorder ["volCryostat"]%string SampleTree.worldNode 4)
    as (paths & E & P & _).
  - vm_compute. lia.
  - exists paths. split; [exact E | exact P].
Defined.
End IteratorFacts.

Section FindFirstFacts.
Variable name : string.




End FindFirstFacts.
